(** * An in-memory bank (src/impl.ts): accounts, balances and the bank total

    The development embeds [validateAmount], [BankImpl], [AccountImpl] and
    [ManagerImpl] of [src/impl.ts] and proves properties of deposits,
    withdrawals and transfers.

    Modelling choices, each following the source:
    - a TypeScript [number] is an IEEE 754 binary64 value: Rocq's primitive
      [float], with [+], [-], [<=] and [<] being the primitive operations
      (a comparison with NaN is false, as in JavaScript);
    - a [string] is a sequence of 8-bit code units; [trim] is the built-in
      [String.prototype.trim] on them;
    - [Map<string, AccountImpl>] is the list of its entries in insertion
      order (the order in which a JavaScript Map is iterated);
    - an [AccountImpl] object is denoted by a reference: the position of its
      entry in the bank's map.  The caller's handle and the map entry are
      the same object, so a mutation through one is seen through the other;
    - a method is a state transformer that either returns or throws; the
      state after a [throw] is the state reached at the throw, so that
      "nothing changed on failure" is a theorem and not a convention. *)

From Stdlib Require Import Floats ZArith List String Ascii Bool Lia.
From Stdlib Require Uint63.
Import ListNotations.

Set Warnings "-inexact-float".

(** ** Errors (src/errors.ts) *)

Inductive BankError : Type :=
| InvalidAmountError
| InsufficientBalanceError
| MissingAccountError
| InvalidNameError
| NameAlreadyExistsError.

(** ** Objects *)

(** A reference to an [AccountImpl] object. *)
Definition ref := nat.

(** The fields of an [AccountImpl]; its [bank] field always points to the
    one bank of the state and is left implicit. *)
Record AccountImpl : Type := mkAccount {
  name : string;
  balance : float
}.

Record BankImpl : Type := mkBank {
  accounts : list (string * AccountImpl);
  totalBalance : float
}.

(** ** Strings *)

(** White space and line terminators of ECMAScript among the code units
    below 256: TAB, LF, VT, FF, CR, SP and NBSP. *)
Definition isWhiteSpace (c : ascii) : bool :=
  let n := nat_of_ascii c in
  ((9 <=? n) && (n <=? 13) || (n =? 32) || (n =? 160))%nat.

Fixpoint trimStart (s : string) : string :=
  match s with
  | EmptyString => EmptyString
  | String c s' => if isWhiteSpace c then trimStart s' else s
  end.

Fixpoint trimEnd (s : string) : string :=
  match s with
  | EmptyString => EmptyString
  | String c s' =>
      match trimEnd s' with
      | EmptyString => if isWhiteSpace c then EmptyString else String c EmptyString
      | t => String c t
      end
  end.

(** [String.prototype.trim]. *)
Definition trim (s : string) : string := trimEnd (trimStart s).

(** ** The Map of accounts *)

(** [replace_nth i x l] overwrites position [i] of [l], when there is one. *)
Fixpoint replace_nth {A : Type} (i : nat) (x : A) (l : list A) : list A :=
  match l, i with
  | [], _ => []
  | _ :: l', O => x :: l'
  | y :: l', S i' => y :: replace_nth i' x l'
  end.

Section MapOps.
Context {V : Type}.

(** Position of the entry with key [k], if any. *)
Fixpoint Map_index (k : string) (m : list (string * V)) : option nat :=
  match m with
  | [] => None
  | (k', _) :: m' =>
      if String.eqb k' k then Some O
      else option_map S (Map_index k m')
  end.

(** [Map.prototype.has]. *)
Definition Map_has (k : string) (m : list (string * V)) : bool :=
  match Map_index k m with Some _ => true | None => false end.

(** [Map.prototype.set]: a present key keeps its place, a new key goes
    last. *)
Definition Map_set (k : string) (v : V) (m : list (string * V)) :=
  match Map_index k m with
  | Some i => replace_nth i (k, v) m
  | None => m ++ [(k, v)]
  end.
End MapOps.

(** ** Methods as state transformers with exceptions *)

(** A method returns a value or throws one of the errors.  [NoSuchObject]
    stands for a call through a reference that denotes no account of the
    bank; the interface hands out no such reference
    ([createAccount_ref], [call_keeps_refs]). *)
Inductive outcome (A : Type) : Type :=
| Returns (a : A)
| Throws (e : BankError)
| NoSuchObject.
Arguments Returns {A} a.
Arguments Throws {A} e.
Arguments NoSuchObject {A}.

Definition M (A : Type) : Type := BankImpl -> outcome A * BankImpl.

Definition ret {A} (a : A) : M A := fun st => (Returns a, st).

Definition throw {A} (e : BankError) : M A := fun st => (Throws e, st).

Definition bind {A B} (c : M A) (k : A -> M B) : M B :=
  fun st =>
    match c st with
    | (Returns a, st') => k a st'
    | (Throws e, st') => (Throws e, st')
    | (NoSuchObject, st') => (NoSuchObject, st')
    end.

Declare Scope bank_scope.
Delimit Scope bank_scope with bank.
Notation "x <- c ;; k" := (bind c (fun x => k))
  (at level 61, c at next level, right associativity) : bank_scope.
Notation "c ;; k" := (bind c (fun _ => k))
  (at level 61, right associativity) : bank_scope.
Local Open Scope bank_scope.

(** Field reads and writes. *)

Definition getField {A} (f : AccountImpl -> A) (this : ref) : M A :=
  fun st =>
    match nth_error (accounts st) this with
    | Some (_, a) => (Returns (f a), st)
    | None => (NoSuchObject, st)
    end.

Definition setBalance (this : ref) (v : float) : M unit :=
  fun st =>
    match nth_error (accounts st) this with
    | Some (k, a) =>
        (Returns tt,
         mkBank (replace_nth this (k, mkAccount (name a) v) (accounts st))
                (totalBalance st))
    | None => (NoSuchObject, st)
    end.

Definition getTotal : M float := fun st => (Returns (totalBalance st), st).

Definition setTotal (v : float) : M unit :=
  fun st => (Returns tt, mkBank (accounts st) v).

(** ** src/impl.ts *)

(** [validateAmount], lines 20-24. *)
Definition validateAmount (amount : float) : M unit :=
  if (amount <=? 0)%float then throw InvalidAmountError else ret tt.

(** [BankImpl.getTotalBalance], lines 41-43. *)
Definition BankImpl_getTotalBalance : M float := getTotal.

(** [BankImpl.deposit], lines 50-52. *)
Definition BankImpl_deposit (amount : float) : M unit :=
  t <- getTotal ;; setTotal (t + amount)%float.

(** [BankImpl.withdraw], lines 59-63. *)
Definition BankImpl_withdraw (amount : float) : M unit :=
  t <- getTotal ;; setTotal (t - amount)%float.

(** [BankImpl.getAccountByName], lines 74-80. *)
Definition BankImpl_getAccountByName (name : string) : M ref :=
  fun st =>
    match Map_index name (accounts st) with
    | Some account => (Returns account, st)
    | None => (Throws MissingAccountError, st)
    end.

(** The constructor of [AccountImpl], lines 122-134.  It tests the length
    of its parameter [name], after having stored the trimmed name. *)
Definition AccountImpl_new (name : string) (balance : float) : M AccountImpl :=
  validateAmount balance ;;
  let this := mkAccount (trim name) balance in
  if (String.length name =? 0)%nat then throw InvalidNameError
  else ret this.

(** [this.accounts.has(name)]. *)
Definition accountsHas (name : string) : M bool :=
  fun st => (Returns (Map_has name (accounts st)), st).

(** [this.accounts.set(name, account)]: the object becomes reachable under
    the key [name]; the result is the reference by which it is known from
    then on (the place of the key). *)
Definition accountsSet (name : string) (account : AccountImpl) : M ref :=
  fun st =>
    (Returns (match Map_index name (accounts st) with
              | Some i => i
              | None => List.length (accounts st)
              end),
     mkBank (Map_set name account (accounts st)) (totalBalance st)).

(** [BankImpl.createAccount], lines 94-110. *)
Definition BankImpl_createAccount (name : string) (balance : float) : M ref :=
  validateAmount balance ;;
  present <- accountsHas name ;;
  if (present : bool) then throw NameAlreadyExistsError
  else
    account <- AccountImpl_new name balance ;;
    r <- accountsSet name account ;;
    t <- getTotal ;;
    setTotal (t + balance)%float ;;
    ret r.

(** [AccountImpl.deposit], lines 143-152. *)
Definition AccountImpl_deposit (this : ref) (amount : float) : M unit :=
  validateAmount amount ;;
  b <- getField balance this ;;
  setBalance this (b + amount)%float ;;
  BankImpl_deposit amount.

(** [AccountImpl.withdraw], lines 162-175. *)
Definition AccountImpl_withdraw (this : ref) (amount : float) : M unit :=
  validateAmount amount ;;
  b <- getField balance this ;;
  if (b <? amount)%float then throw InsufficientBalanceError
  else
    setBalance this (b - amount)%float ;;
    BankImpl_withdraw amount.

(** [AccountImpl.receiveTransfer], lines 224-228. *)
Definition AccountImpl_receiveTransfer (this : ref) (amount : float) : M unit :=
  b <- getField balance this ;;
  setBalance this (b + amount)%float.

(** [AccountImpl.transfer], lines 187-208. *)
Definition AccountImpl_transfer (this : ref) (recipient : string)
    (amount : float) : M unit :=
  validateAmount amount ;;
  b <- getField balance this ;;
  if (b <? amount)%float then throw InsufficientBalanceError
  else
    n <- getField name this ;;
    if String.eqb n recipient then ret tt
    else
      recipientAccount <- BankImpl_getAccountByName recipient ;;
      b' <- getField balance this ;;
      setBalance this (b' - amount)%float ;;
      AccountImpl_receiveTransfer recipientAccount amount.

(** [AccountImpl.checkBalance], lines 215-217. *)
Definition AccountImpl_checkBalance (this : ref) : M float :=
  getField balance this.

(** [ManagerImpl.getTotalBankBalance], lines 248-250. *)
Definition ManagerImpl_getTotalBankBalance : M float :=
  BankImpl_getTotalBalance.

(** [createBank], lines 268-273: a bank with no account and total 0. *)
Definition createBank : BankImpl := mkBank [] 0%float.


(** ** Calls made by a client, and the states seen between them *)

Inductive Call : Type :=
| CreateAccount (name : string) (balance : float)
| Deposit (this : ref) (amount : float)
| Withdraw (this : ref) (amount : float)
| Transfer (this : ref) (recipient : string) (amount : float).

Definition call (c : Call) : M unit :=
  match c with
  | CreateAccount name balance => _ <- BankImpl_createAccount name balance ;; ret tt
  | Deposit this amount => AccountImpl_deposit this amount
  | Withdraw this amount => AccountImpl_withdraw this amount
  | Transfer this recipient amount => AccountImpl_transfer this recipient amount
  end.

(** The state before the first call and after each call.  A call that
    throws is survived by its caller, and the next call sees the state the
    throw left. *)
Fixpoint trace (cs : list Call) (st : BankImpl) : list BankImpl :=
  st :: match cs with
        | [] => []
        | c :: cs' => trace cs' (snd (call c st))
        end.

(** The state after the calls [cs]. *)
Fixpoint run (cs : list Call) (st : BankImpl) : BankImpl :=
  match cs with
  | [] => st
  | c :: cs' => run cs' (snd (call c st))
  end.

(** Every call of [cs] returns normally. *)
Fixpoint allReturn (cs : list Call) (st : BankImpl) : bool :=
  match cs with
  | [] => true
  | c :: cs' =>
      match call c st with
      | (Returns _, st') => allReturn cs' st'
      | _ => false
      end
  end.

(** The balances of the registry, in the order of the Map. *)
Definition balances (st : BankImpl) : list float :=
  map (fun e => balance (snd e)) (accounts st).

(** [sum(account.balance for account in accounts)], added up in [number]
    arithmetic from 0. *)
Definition sumBalances (st : BankImpl) : float :=
  fold_left (fun s b => (s + b)%float) (balances st) 0%float.


(** ** Vocabulary of the properties *)

(** The states a client can reach from a new bank. *)
Definition reachable (st : BankImpl) : Prop :=
  exists cs, st = run cs createBank.

(** [amount > 0] and [Number.isFinite(amount)]: a positive finite number. *)
Definition positiveFinite (amount : float) : bool :=
  (0 <? amount)%float && is_finite amount.

(** [0 <= b] on every balance of the registry. *)
Definition balancesNonNegative (st : BankImpl) : Prop :=
  Forall (fun b => (0 <=? b)%float = true) (balances st).

(** No balance of the registry is less than 0. *)
Definition balancesNotNegative (st : BankImpl) : Prop :=
  Forall (fun b => (b <? 0)%float = false) (balances st).

Definition amountOf (c : Call) : float :=
  match c with
  | CreateAccount _ a | Deposit _ a | Withdraw _ a | Transfer _ _ a => a
  end.

(** [Number.MAX_SAFE_INTEGER], 2^53 - 1. *)
Definition MAX_SAFE_INTEGER : Z := 9007199254740991.

(** [Number(z)] for an integer [z] with [0 <= z < 2^63]. *)
Definition Z2F (z : Z) : float := of_uint63 (Uint63.of_Z z).

(** Calls whose amounts are integers. *)
Inductive ZCall : Type :=
| ZCreateAccount (name : string) (balance : Z)
| ZDeposit (this : ref) (amount : Z)
| ZWithdraw (this : ref) (amount : Z)
| ZTransfer (this : ref) (recipient : string) (amount : Z).

Definition toCall (c : ZCall) : Call :=
  match c with
  | ZCreateAccount name z => CreateAccount name (Z2F z)
  | ZDeposit this z => Deposit this (Z2F z)
  | ZWithdraw this z => Withdraw this (Z2F z)
  | ZTransfer this recipient z => Transfer this recipient (Z2F z)
  end.

Definition ZamountOf (c : ZCall) : Z :=
  match c with
  | ZCreateAccount _ z | ZDeposit _ z | ZWithdraw _ z | ZTransfer _ _ z => z
  end.

(** What a call may bring into the bank from outside. *)
Definition inflow (c : ZCall) : Z :=
  match c with
  | ZCreateAccount _ z | ZDeposit _ z => z
  | ZWithdraw _ _ | ZTransfer _ _ _ => 0
  end.

Definition totalInflow (cs : list ZCall) : Z :=
  fold_right (fun c s => inflow c + s)%Z 0%Z cs.

Definition Zsum (zs : list Z) : Z := fold_right Z.add 0%Z zs.

(** *** Binary64 numbers through their specification *)

(** [0 <= x], read on the specification of a number. *)
Definition SFnonneg (x : spec_float) : bool :=
  match x with
  | S754_zero _ => true
  | S754_infinity s => negb s
  | S754_nan => false
  | S754_finite s _ _ => negb s
  end.

(** Not less than 0: as [SFnonneg], or NaN. *)
Definition SFnotneg (x : spec_float) : bool :=
  match x with
  | S754_nan => true
  | _ => SFnonneg x
  end.

(** What [amount <= 0] lets through: the positive numbers, +Infinity and
    NaN. *)
Definition SFaccepted (x : spec_float) : bool :=
  match x with
  | S754_zero _ => false
  | S754_infinity s => negb s
  | S754_nan => true
  | S754_finite s _ _ => negb s
  end.

(** A positive finite number. *)
Definition SFposfin (x : spec_float) : bool :=
  match x with
  | S754_finite s _ _ => negb s
  | _ => false
  end.

(** The binary64 number of an integer [0 <= z < 2^53]: its digits shifted
    to fill the 53 bits of the mantissa. *)
Definition SFint (z : Z) : spec_float :=
  match z with
  | Zpos n =>
      S754_finite false (Z.to_pos (z * 2 ^ (53 - Zdigits2 z))) (Zdigits2 z - 53)
  | _ => S754_zero false
  end.


(** *** Auxiliary notions of the proofs *)

(** The registry after [this] paid [amount] to the object [r]; the second
    write reads what the first one left, also when [r] is [this]. *)
Definition transferred (this r : ref) (amount : float)
    (m : list (string * AccountImpl)) : list (string * AccountImpl) :=
  match nth_error m this with
  | None => m
  | Some (k, a) =>
      let m1 := replace_nth this (k, mkAccount (name a) (balance a - amount)) m in
      match nth_error m1 r with
      | None => m1
      | Some (kr, ar) =>
          replace_nth r (kr, mkAccount (name ar) (balance ar + amount)) m1
      end
  end.

(** Every account of a reachable bank stores the trimmed form of the key
    it is registered under. *)
Definition namesTrimmed (st : BankImpl) : Prop :=
  Forall (fun e => name (snd e) = trim (fst e)) (accounts st).

(** The registry [m] holds the integers [zs], all non-negative. *)
Definition holds (m : list (string * AccountImpl)) (zs : list Z) : Prop :=
  map (fun e => balance (snd e)) m = map Z2F zs /\ Forall (fun z => (0 <= z)%Z) zs.

(** The state holds integers, and its total is their sum. *)
Definition safeState (st : BankImpl) (zs : list Z) : Prop :=
  holds (accounts st) zs /\ totalBalance st = Z2F (Zsum zs).


(** *** Vocabulary of the further properties *)

(** Who is in the registry: the key and the stored name of every account,
    in the order of the Map. *)
Definition identities (st : BankImpl) : list (string * string) :=
  map (fun e => (fst e, name (snd e))) (accounts st).


(** * Properties *)

(** ** Facts on binary64 numbers *)

Lemma Prim2SF_zero : Prim2SF 0 = S754_zero false.
Proof. reflexivity. Qed.

Lemma leb_zero_r (a : float) :
  (a <=? 0)%float =
  match Prim2SF a with
  | S754_zero _ => true
  | S754_infinity s => s
  | S754_nan => false
  | S754_finite s _ _ => s
  end.
Proof.
  rewrite FloatAxioms.leb_spec, Prim2SF_zero.
  destruct (Prim2SF a) as [[]|[]| |[] m e]; reflexivity.
Qed.

Lemma ltb_zero_l (a : float) :
  (0 <? a)%float =
  match Prim2SF a with
  | S754_zero _ => false
  | S754_infinity s => negb s
  | S754_nan => false
  | S754_finite s _ _ => negb s
  end.
Proof.
  rewrite FloatAxioms.ltb_spec, Prim2SF_zero.
  destruct (Prim2SF a) as [[]|[]| |[] m e]; reflexivity.
Qed.

Lemma leb_zero_l (a : float) : (0 <=? a)%float = SFnonneg (Prim2SF a).
Proof.
  rewrite FloatAxioms.leb_spec, Prim2SF_zero.
  destruct (Prim2SF a) as [[]|[]| |[] m e]; reflexivity.
Qed.

Lemma SFcompare_refl (x : spec_float) :
  SFcompare x x = match x with S754_nan => None | _ => Some Eq end.
Proof.
  destruct x as [[]|[]| |[] m e]; simpl; try reflexivity;
    rewrite Z.compare_refl; fold (Pos.compare m m);
    rewrite Pos.compare_refl; reflexivity.
Qed.

Lemma is_nan_spec (a : float) :
  is_nan a = match Prim2SF a with S754_nan => true | _ => false end.
Proof.
  unfold is_nan. rewrite FloatAxioms.eqb_spec. unfold SFeqb. rewrite SFcompare_refl.
  destruct (Prim2SF a); reflexivity.
Qed.

Lemma is_finite_spec (a : float) :
  is_finite a =
  match Prim2SF a with
  | S754_nan | S754_infinity _ => false
  | _ => true
  end.
Proof.
  unfold is_finite, is_infinity. rewrite is_nan_spec, FloatAxioms.eqb_spec, abs_spec.
  destruct (Prim2SF a) as [[]|[]| |[] m e]; reflexivity.
Qed.

(** An amount that passes [amount <= 0] and is finite is a positive finite
    binary64 number. *)
Lemma posfin_spec (a : float) :
  (a <=? 0)%float = false -> is_finite a = true -> SFposfin (Prim2SF a) = true.
Proof.
  rewrite leb_zero_r, is_finite_spec.
  destruct (Prim2SF a) as [[]|[]| |[] m e]; simpl; congruence.
Qed.

(** *** Rounding keeps the sign *)

Section IterPos.
Context {A : Type} (f : A -> A).

Lemma iter_pos_inv (P : A -> Prop) :
  (forall x, P x -> P (f x)) -> forall p x, P x -> P (SpecFloat.iter_pos f p x).
Proof.
  intros Hf. induction p as [p IH|p IH|]; simpl; intros x Hx; auto.
Qed.

Lemma iter_pos_iter (p : positive) (x : A) : SpecFloat.iter_pos f p x = Pos.iter f x p.
Proof.
  revert x. induction p as [p IH|p IH|]; simpl; intros x.
  - rewrite !IH, !Pos.iter_swap. reflexivity.
  - rewrite !IH. reflexivity.
  - reflexivity.
Qed.
End IterPos.

Lemma shr_1_nonneg (mrs : shr_record) :
  (0 <= shr_m mrs)%Z -> (0 <= shr_m (shr_1 mrs))%Z.
Proof.
  destruct mrs as [m r s]. destruct m as [|[p|p|]|[p|p|]]; simpl; lia.
Qed.

Lemma shr_nonneg (mrs : shr_record) (e n : Z) :
  (0 <= shr_m mrs)%Z -> (0 <= shr_m (fst (shr mrs e n)))%Z.
Proof.
  intros H. destruct n as [|p|p]; simpl; auto.
  apply iter_pos_inv; auto using shr_1_nonneg.
Qed.

Lemma shr_fexp_nonneg (m e : Z) (l : location) :
  (0 <= m)%Z -> (0 <= shr_m (fst (shr_fexp prec emax m e l)))%Z.
Proof.
  intros H. unfold shr_fexp. apply shr_nonneg.
  destruct l as [|[]]; simpl; exact H.
Qed.

Lemma round_nearest_even_nonneg (m : Z) (l : location) :
  (0 <= m)%Z -> (0 <= round_nearest_even m l)%Z.
Proof.
  intros H. destruct l as [|[]]; simpl; try lia.
  destruct (Z.even m); lia.
Qed.

Lemma binary_round_aux_nonneg (m e : Z) (l : location) :
  (0 <= m)%Z -> SFnonneg (binary_round_aux prec emax false m e l) = true.
Proof.
  intros H. unfold binary_round_aux.
  pose proof (shr_fexp_nonneg m e l H) as H1.
  destruct (shr_fexp prec emax m e l) as [mrs' e']. simpl in H1.
  pose proof (shr_fexp_nonneg _ e' loc_Exact
                (round_nearest_even_nonneg _ (loc_of_shr_record mrs') H1)) as H2.
  destruct (shr_fexp prec emax _ e' loc_Exact) as [mrs'' e'']. simpl in H2.
  destruct (shr_m mrs'') as [|p|p]; try reflexivity; try lia.
  destruct (e'' <=? emax - prec)%Z; reflexivity.
Qed.

Lemma binary_normalize_nonneg (m e : Z) :
  (0 <= m)%Z -> SFnonneg (binary_normalize prec emax m e false) = true.
Proof.
  intros H. destruct m as [|p|p]; try reflexivity; try lia.
  unfold binary_normalize, binary_round.
  destruct (shl_align _ _ _) as [mz ez].
  apply binary_round_aux_nonneg. lia.
Qed.

(** *** Alignment and digits *)

Lemma iter_xO_Z (m d : positive) :
  Zpos (Pos.iter xO m d) = (Zpos m * 2 ^ Zpos d)%Z.
Proof.
  induction d as [|d IH] using Pos.peano_ind.
  - simpl. lia.
  - rewrite Pos.iter_succ, Pos2Z.inj_xO, IH, Pos2Z.inj_succ, Z.pow_succ_r by lia.
    lia.
Qed.

Lemma shl_align_fst (mx : positive) (ex ez : Z) :
  (ez <= ex)%Z ->
  Zpos (fst (shl_align mx ex ez)) = (Zpos mx * 2 ^ (ex - ez))%Z.
Proof.
  intros H. unfold shl_align.
  destruct (ez - ex)%Z as [|d|d] eqn:E; cbn [fst].
  - replace (ex - ez)%Z with 0%Z by lia. rewrite Z.pow_0_r. lia.
  - pose proof (Pos2Z.is_pos d). lia.
  - rewrite iter_xO_Z. f_equal. f_equal.
    pose proof (Pos2Z.opp_pos d). lia.
Qed.

Lemma digits2_bounds (m : positive) :
  (2 ^ (Zpos (digits2_pos m) - 1) <= Zpos m < 2 ^ Zpos (digits2_pos m))%Z.
Proof.
  induction m as [m IH|m IH|]; cbn [digits2_pos].
  - rewrite Pos2Z.inj_succ. change (Zpos m~1) with (2 * Zpos m + 1)%Z.
    replace (Z.succ (Zpos (digits2_pos m)) - 1)%Z
      with (Z.succ (Zpos (digits2_pos m) - 1)) by lia.
    rewrite !Z.pow_succ_r by lia. lia.
  - rewrite Pos2Z.inj_succ. change (Zpos m~0) with (2 * Zpos m)%Z.
    replace (Z.succ (Zpos (digits2_pos m)) - 1)%Z
      with (Z.succ (Zpos (digits2_pos m) - 1)) by lia.
    rewrite !Z.pow_succ_r by lia. lia.
  - simpl. lia.
Qed.

(** A valid finite number has at most 53 digits and an exponent of at
    least [emin]; above [emin] it has exactly 53. *)
Lemma bounded_digits (m : positive) (e : Z) :
  bounded prec emax m e = true ->
  (Zpos (digits2_pos m) <= 53 /\ -1074 <= e /\
   (-1074 < e -> Zpos (digits2_pos m) = 53))%Z.
Proof.
  unfold bounded, canonical_mantissa, fexp, SpecFloat.emin, prec, emax.
  intros H. apply andb_prop in H. destruct H as [H _].
  apply Z.eqb_eq in H. lia.
Qed.

(** *** Adding to and subtracting from a non-negative number *)

Lemma SFadd_nonneg (x y : spec_float) :
  SFnonneg x = true -> SFposfin y = true -> SFnonneg (SF64add x y) = true.
Proof.
  destruct x as [sx|[]| |[] mx ex], y as [sy|sy| |[] my ey];
    cbn -[binary_normalize Z.add shl_align]; try congruence; intros _ _.
  apply binary_normalize_nonneg. lia.
Qed.

(** The difference of two positive finite numbers, the first not less than
    the second. *)
Lemma SFsub_finite_nonneg (mx my : positive) (ex ey : Z) :
  bounded prec emax mx ex = true -> bounded prec emax my ey = true ->
  SFltb (S754_finite false mx ex) (S754_finite false my ey) = false ->
  SFnonneg (SF64sub (S754_finite false mx ex) (S754_finite false my ey)) = true.
Proof.
  cbn -[binary_normalize Z.sub shl_align bounded]. intros Vx Vy Hlt.
  apply binary_normalize_nonneg.
  change IntDef.Z.min with Z.min.
  rewrite !shl_align_fst by lia.
  apply bounded_digits in Vx, Vy.
  pose proof (digits2_bounds mx) as Bx. pose proof (digits2_bounds my) as By.
  change PosDef.Pos.compare_cont with Pos.compare_cont in Hlt.
  destruct (ex ?= ey)%Z eqn:E; try discriminate Hlt.
  - apply Z.compare_eq in E. subst ey.
    rewrite Z.min_id, Z.sub_diag, Z.pow_0_r.
    fold (Pos.compare mx my) in Hlt.
    destruct (mx ?= my)%positive eqn:Em; try discriminate Hlt.
    + apply Pos.compare_eq in Em. subst. lia.
    + apply Pos.compare_gt_iff in Em. lia.
  - apply Z.compare_gt_iff in E.
    rewrite Z.min_r by lia. rewrite Z.sub_diag, Z.pow_0_r.
    destruct Vx as (_ & _ & Dx).
    assert (Zpos (digits2_pos mx) = 53)%Z as Dx' by (apply Dx; lia).
    rewrite Dx' in Bx. destruct Vy as (Dy & _ & _).
    assert (2 ^ Zpos (digits2_pos my) <= 2 ^ 53)%Z
      by (apply Z.pow_le_mono_r; lia).
    assert (2 ^ 1 <= 2 ^ (ex - ey))%Z by (apply Z.pow_le_mono_r; lia).
    change (2 ^ (53 - 1))%Z with 4503599627370496%Z in Bx.
    change (2 ^ 53)%Z with 9007199254740992%Z in *.
    change (2 ^ 1)%Z with 2%Z in *.
    nia.
Qed.

Lemma SFsub_nonneg (x y : spec_float) :
  valid_binary x = true -> valid_binary y = true ->
  SFnonneg x = true -> SFposfin y = true -> SFltb x y = false ->
  SFnonneg (SF64sub x y) = true.
Proof.
  destruct x as [sx|[]| |[] mx ex], y as [sy|sy| |[] my ey];
    try (cbn; congruence); try (destruct sx; cbn; congruence).
  intros Vx Vy _ _. apply SFsub_finite_nonneg; assumption.
Qed.

Lemma SFnonneg_notneg (x : spec_float) : SFnonneg x = true -> SFnotneg x = true.
Proof. destruct x; cbn; congruence. Qed.

Lemma SFadd_notneg (x y : spec_float) :
  SFnotneg x = true -> SFaccepted y = true -> SFnotneg (SF64add x y) = true.
Proof.
  destruct x as [sx|[]| |[] mx ex], y as [sy|[]| |[] my ey];
    try (cbn; congruence); try (destruct sx; cbn; congruence).
  intros _ _. apply SFnonneg_notneg, SFadd_nonneg; reflexivity.
Qed.

Lemma SFsub_notneg (x y : spec_float) :
  valid_binary x = true -> valid_binary y = true ->
  SFnotneg x = true -> SFaccepted y = true -> SFltb x y = false ->
  SFnotneg (SF64sub x y) = true.
Proof.
  destruct x as [sx|[]| |[] mx ex], y as [sy|[]| |[] my ey];
    try (cbn; congruence); try (destruct sx; cbn; congruence).
  intros Vx Vy _ _ Hlt.
  apply SFnonneg_notneg, SFsub_finite_nonneg; assumption.
Qed.

Lemma ltb_zero_r (a : float) : (a <? 0)%float = negb (SFnotneg (Prim2SF a)).
Proof.
  rewrite FloatAxioms.ltb_spec, Prim2SF_zero.
  destruct (Prim2SF a) as [[]|[]| |[] m e]; reflexivity.
Qed.

Lemma accepted_spec (a : float) :
  (a <=? 0)%float = false -> SFaccepted (Prim2SF a) = true.
Proof.
  rewrite leb_zero_r.
  destruct (Prim2SF a) as [[]|[]| |[] m e]; cbn; congruence.
Qed.

Lemma add_notneg (b a : float) :
  (b <? 0)%float = false -> (a <=? 0)%float = false ->
  (b + a <? 0)%float = false.
Proof.
  rewrite !ltb_zero_r, add_spec, !negb_false_iff. intros Hb Ha.
  apply SFadd_notneg; auto using accepted_spec.
Qed.

Lemma sub_notneg (b a : float) :
  (b <? 0)%float = false -> (a <=? 0)%float = false ->
  (b <? a)%float = false ->
  (b - a <? 0)%float = false.
Proof.
  rewrite !ltb_zero_r, sub_spec, FloatAxioms.ltb_spec, !negb_false_iff.
  intros Hb Ha Hlt.
  apply SFsub_notneg; auto using accepted_spec, Prim2SF_valid.
Qed.

Lemma add_nonneg (b a : float) :
  (0 <=? b)%float = true -> (a <=? 0)%float = false -> is_finite a = true ->
  (0 <=? b + a)%float = true.
Proof.
  rewrite !leb_zero_l, add_spec. intros Hb Ha Hf.
  apply SFadd_nonneg; auto using posfin_spec.
Qed.

Lemma sub_nonneg (b a : float) :
  (0 <=? b)%float = true -> (a <=? 0)%float = false -> is_finite a = true ->
  (b <? a)%float = false ->
  (0 <=? b - a)%float = true.
Proof.
  rewrite !leb_zero_l, sub_spec, FloatAxioms.ltb_spec. intros Hb Ha Hf Hlt.
  apply SFsub_nonneg; auto using posfin_spec, Prim2SF_valid.
Qed.


(** *** Integers below 2^53 are binary64 numbers, and their sums and
    differences are exact *)

Lemma digits2_log2 (m : positive) :
  Zpos (digits2_pos m) = (Z.log2 (Zpos m) + 1)%Z.
Proof.
  pose proof (digits2_bounds m) as B.
  enough (Z.log2 (Zpos m) = Zpos (digits2_pos m) - 1)%Z by lia.
  apply Z.log2_unique; [lia|].
  replace (Z.succ (Zpos (digits2_pos m) - 1)) with (Zpos (digits2_pos m)) by lia.
  exact B.
Qed.

Lemma digits2_shift (p n : positive) (k : Z) :
  (0 <= k)%Z -> Zpos p = (Zpos n * 2 ^ k)%Z ->
  Zpos (digits2_pos p) = (Zpos (digits2_pos n) + k)%Z.
Proof.
  intros Hk E. rewrite !digits2_log2, E, Z.log2_mul_pow2 by lia. lia.
Qed.

Lemma shr_iter_xO (p m : positive) :
  Pos.iter shr_1 (Build_shr_record (Zpos (Pos.iter xO m p)) false false) p =
  Build_shr_record (Zpos m) false false.
Proof.
  induction p as [|p IH] using Pos.peano_ind.
  - reflexivity.
  - rewrite Pos.iter_succ_r, Pos.iter_succ. cbn [shr_1 orb]. exact IH.
Qed.

(** Rounding a mantissa of [53 + q] digits whose last [q] digits are 0. *)
Lemma binary_round_aux_exact (mz m' : positive) (ez q : Z) :
  (0 <= q)%Z -> Zpos mz = (Zpos m' * 2 ^ q)%Z ->
  Zpos (digits2_pos m') = 53%Z ->
  (-1074 <= ez + q <= 971)%Z ->
  binary_round_aux prec emax false (Zpos mz) ez loc_Exact =
  S754_finite false m' (ez + q).
Proof.
  intros Hq E D B.
  assert (shr_fexp prec emax (Zpos mz) ez loc_Exact =
          (Build_shr_record (Zpos m') false false, (ez + q)%Z)) as S1.
  { unfold shr_fexp. cbn [Zdigits2 shr_record_of_loc].
    rewrite (digits2_shift mz m' q Hq E), D.
    replace (fexp prec emax (53 + q + ez) - ez)%Z with q
      by (unfold fexp, SpecFloat.emin, prec, emax; lia).
    destruct q as [|q|q]; try lia.
    - cbn [shr]. rewrite Z.pow_0_r in E. f_equal; [|lia].
      f_equal. lia.
    - cbn [shr]. f_equal. rewrite iter_pos_iter.
      rewrite <- iter_xO_Z in E. injection E as ->. apply shr_iter_xO. }
  assert (shr_fexp prec emax (Zpos m') (ez + q) loc_Exact =
          (Build_shr_record (Zpos m') false false, (ez + q)%Z)) as S2.
  { unfold shr_fexp. cbn [Zdigits2 shr_record_of_loc]. rewrite D.
    replace (fexp prec emax (53 + (ez + q)) - (ez + q))%Z with 0%Z
      by (unfold fexp, SpecFloat.emin, prec, emax; lia).
    reflexivity. }
  unfold binary_round_aux. rewrite S1.
  cbn [shr_m loc_of_shr_record round_nearest_even]. rewrite S2. cbn [shr_m].
  replace (ez + q <=? emax - prec)%Z with true; [reflexivity|].
  symmetry. apply Z.leb_le. unfold emax, prec. lia.
Qed.

Lemma pow2_digits_53 (n : positive) :
  (Zpos n < 2 ^ 53)%Z ->
  (0 <= 53 - Zpos (digits2_pos n))%Z /\
  exists m', Zpos m' = (Zpos n * 2 ^ (53 - Zpos (digits2_pos n)))%Z /\
             Zpos (digits2_pos m') = 53%Z.
Proof.
  intros H. pose proof (digits2_bounds n) as B.
  assert (Zpos (digits2_pos n) <= 53)%Z as D.
  { destruct (Z_le_gt_dec (Zpos (digits2_pos n)) 53) as [|G]; auto.
    assert (2 ^ 53 <= 2 ^ (Zpos (digits2_pos n) - 1))%Z
      by (apply Z.pow_le_mono_r; lia).
    lia. }
  assert (0 <= 53 - Zpos (digits2_pos n))%Z as Hd by lia.
  split; [exact Hd|].
  assert (0 < Zpos n * 2 ^ (53 - Zpos (digits2_pos n)))%Z as P
    by (apply Z.mul_pos_pos; [lia|apply Z.pow_pos_nonneg; lia]).
  destruct (Zpos n * 2 ^ (53 - Zpos (digits2_pos n)))%Z as [|m'|m'] eqn:E;
    try lia.
  exists m'. split; [reflexivity|].
  rewrite (digits2_shift m' n (53 - Zpos (digits2_pos n)) Hd (eq_sym E)). lia.
Qed.

(** Normalising [n * 2^k] at exponent [-k] gives the number of [n]. *)
Lemma binary_round_int (p n : positive) (k : Z) :
  (0 <= k)%Z -> Zpos p = (Zpos n * 2 ^ k)%Z -> (Zpos n < 2 ^ 53)%Z ->
  binary_round prec emax false p (- k) = SFint (Zpos n).
Proof.
  intros Hk E H.
  destruct (pow2_digits_53 n H) as (Hd & m' & Em & Dm).
  unfold SFint. cbn [Zdigits2]. rewrite <- Em. cbn [Z.to_pos].
  unfold binary_round.
  rewrite (digits2_shift p n k Hk E).
  replace (fexp prec emax (Zpos (digits2_pos n) + k + - k))
    with (Zpos (digits2_pos n) - 53)%Z
    by (unfold fexp, SpecFloat.emin, prec, emax; lia).
  pose proof (Pos2Z.is_pos (digits2_pos n)) as Dpos.
  remember (Zpos (digits2_pos n)) as d eqn:Ed. clear Ed.
  destruct (shl_align p (- k) (d - 53)) as [mz ez] eqn:Sh.
  assert (ez = Z.min (- k) (d - 53) /\
          Zpos mz = (Zpos p * 2 ^ (- k - ez))%Z) as [Hez Hmz].
  { unfold shl_align in Sh.
    destruct (d - 53 - - k)%Z as [|t|t] eqn:T; injection Sh as <- <-.
    - split; [lia|]. replace (- k - - k)%Z with 0%Z by lia.
      rewrite Z.pow_0_r. lia.
    - pose proof (Pos2Z.is_pos t). split; [lia|].
      replace (- k - - k)%Z with 0%Z by lia. rewrite Z.pow_0_r. lia.
    - pose proof (Pos2Z.opp_pos t). pose proof (Pos2Z.is_pos t).
      split; [lia|]. rewrite iter_xO_Z. f_equal. f_equal. lia. }
  replace (d - 53)%Z with (ez + (d - 53 - ez))%Z by lia.
  apply binary_round_aux_exact; try lia.
  rewrite Hmz, E, Em, <- !Z.mul_assoc, <- !Z.pow_add_r by lia.
  f_equal. f_equal. lia.
Qed.

Lemma binary_normalize_int (z k : Z) :
  (0 <= k)%Z -> (0 <= z < 2 ^ 53)%Z ->
  binary_normalize prec emax (z * 2 ^ k) (- k) false = SFint z.
Proof.
  intros Hk [H0 H]. destruct z as [|n|n]; try lia; [reflexivity|].
  assert (0 < Zpos n * 2 ^ k)%Z as P
    by (apply Z.mul_pos_pos; [lia|apply Z.pow_pos_nonneg; lia]).
  destruct (Zpos n * 2 ^ k)%Z as [|p|p] eqn:E; try lia.
  cbn [binary_normalize]. apply binary_round_int; auto.
Qed.

Lemma SFint_pos (n : positive) :
  (Zpos n < 2 ^ 53)%Z ->
  exists m, SFint (Zpos n) = S754_finite false m (Zpos (digits2_pos n) - 53) /\
            Zpos m = (Zpos n * 2 ^ (53 - Zpos (digits2_pos n)))%Z /\
            (0 <= 53 - Zpos (digits2_pos n))%Z.
Proof.
  intros H. destruct (pow2_digits_53 n H) as (Hd & m' & Em & Dm).
  exists m'. unfold SFint. cbn [Zdigits2]. rewrite <- Em. auto.
Qed.

(** Both operands aligned on the smaller exponent are [a * 2^k] and
    [b * 2^k]. *)
Lemma SFint_align (a b : positive) :
  (Zpos a < 2 ^ 53)%Z -> (Zpos b < 2 ^ 53)%Z ->
  exists ma ea mb eb k,
    SFint (Zpos a) = S754_finite false ma ea /\
    SFint (Zpos b) = S754_finite false mb eb /\
    (0 <= k)%Z /\ Z.min ea eb = (- k)%Z /\
    Zpos (fst (shl_align ma ea (Z.min ea eb))) = (Zpos a * 2 ^ k)%Z /\
    Zpos (fst (shl_align mb eb (Z.min ea eb))) = (Zpos b * 2 ^ k)%Z.
Proof.
  intros Ha Hb.
  destruct (SFint_pos a Ha) as (ma & Ea & Ema & Da).
  destruct (SFint_pos b Hb) as (mb & Eb & Emb & Db).
  remember (Zpos (digits2_pos a)) as da eqn:Eda. clear Eda.
  remember (Zpos (digits2_pos b)) as db eqn:Edb. clear Edb.
  exists ma, (da - 53)%Z, mb, (db - 53)%Z, (- Z.min (da - 53) (db - 53))%Z.
  split; [exact Ea|]. split; [exact Eb|]. split; [lia|]. split; [lia|].
  rewrite !shl_align_fst by lia. rewrite Ema, Emb.
  rewrite <- !Z.mul_assoc, <- !Z.pow_add_r by lia.
  split; f_equal; f_equal; lia.
Qed.

Lemma SFadd_int (a b : Z) :
  (0 <= a)%Z -> (0 <= b)%Z -> (a + b < 2 ^ 53)%Z ->
  SF64add (SFint a) (SFint b) = SFint (a + b).
Proof.
  intros Ha Hb H.
  destruct a as [|a|a]; try lia; [destruct b; reflexivity|].
  destruct b as [|b|b]; try lia.
  { rewrite Z.add_0_r. destruct (SFint_pos a ltac:(lia)) as (m & -> & _).
    reflexivity. }
  destruct (SFint_align a b ltac:(lia) ltac:(lia))
    as (ma & ea & mb & eb & k & -> & -> & Hk & Hmin & Fa & Fb).
  unfold SF64add, SFadd. change IntDef.Z.min with Z.min.
  cbn [cond_Zopp]. rewrite Fa, Fb, Hmin, <- Z.mul_add_distr_r.
  apply binary_normalize_int; lia.
Qed.

Lemma SFsub_int (a b : Z) :
  (0 <= b <= a)%Z -> (a < 2 ^ 53)%Z ->
  SF64sub (SFint a) (SFint b) = SFint (a - b).
Proof.
  intros Hb H.
  destruct a as [|a|a]; try lia.
  { assert (b = 0%Z) as -> by lia. reflexivity. }
  destruct b as [|b|b]; try lia.
  { rewrite Z.sub_0_r. destruct (SFint_pos a ltac:(lia)) as (m & -> & _).
    reflexivity. }
  destruct (SFint_align a b ltac:(lia) ltac:(lia))
    as (ma & ea & mb & eb & k & -> & -> & Hk & Hmin & Fa & Fb).
  unfold SF64sub, SFsub. change IntDef.Z.min with Z.min.
  cbn [cond_Zopp]. rewrite Fa, Fb, Hmin, <- Z.mul_sub_distr_r.
  apply binary_normalize_int; lia.
Qed.

Lemma SFcompare_int (a b : Z) :
  (0 <= a < 2 ^ 53)%Z -> (0 <= b < 2 ^ 53)%Z ->
  SFcompare (SFint a) (SFint b) = Some (a ?= b)%Z.
Proof.
  intros Ha Hb.
  destruct a as [|a|a]; try lia.
  { destruct b as [|b|b]; try lia; reflexivity. }
  destruct b as [|b|b]; try lia.
  { destruct (SFint_pos a ltac:(lia)) as (m & -> & _). reflexivity. }
  destruct (SFint_pos a ltac:(lia)) as (ma & -> & Ema & Da).
  destruct (SFint_pos b ltac:(lia)) as (mb & -> & Emb & Db).
  pose proof (digits2_bounds a) as Ba. pose proof (digits2_bounds b) as Bb.
  unfold SFcompare. f_equal.
  remember (Zpos (digits2_pos a)) as da eqn:Eda. clear Eda.
  remember (Zpos (digits2_pos b)) as db eqn:Edb. clear Edb.
  destruct (Z.compare_spec (da - 53) (db - 53)) as [E|E|E].
  - change (PosDef.Pos.compare_cont Eq ma mb) with (Zpos ma ?= Zpos mb)%Z.
    rewrite Ema, Emb. replace db with da by lia.
    assert (0 < 2 ^ (53 - da))%Z by (apply Z.pow_pos_nonneg; lia).
    symmetry. apply Zmult_compare_compat_r. lia.
  - symmetry. apply Z.compare_lt_iff.
    assert (2 ^ da <= 2 ^ (db - 1))%Z by (apply Z.pow_le_mono_r; lia). lia.
  - symmetry. apply Z.compare_gt_iff.
    assert (2 ^ db <= 2 ^ (da - 1))%Z by (apply Z.pow_le_mono_r; lia). lia.
Qed.

Lemma Prim2SF_Z2F (z : Z) :
  (0 <= z < 2 ^ 53)%Z -> Prim2SF (Z2F z) = SFint z.
Proof.
  intros H. unfold Z2F. rewrite of_uint63_spec.
  change (Uint63Axioms.to_Z (Uint63.of_Z z)) with (Uint63.to_Z (Uint63.of_Z z)).
  rewrite Uint63.of_Z_spec.
  rewrite Z.mod_small
    by (change Uint63.wB with (2 ^ 63)%Z;
        assert (2 ^ 53 < 2 ^ 63)%Z by (apply Z.pow_lt_mono_r; lia); lia).
  replace z with (z * 2 ^ 0)%Z at 1 by (rewrite Z.pow_0_r; lia).
  change 0%Z with (- 0)%Z at 2.
  apply binary_normalize_int; lia.
Qed.

Lemma Z2F_add (a b : Z) :
  (0 <= a)%Z -> (0 <= b)%Z -> (a + b < 2 ^ 53)%Z ->
  (Z2F a + Z2F b)%float = Z2F (a + b).
Proof.
  intros Ha Hb H. apply Prim2SF_inj.
  rewrite add_spec, !Prim2SF_Z2F by lia. apply SFadd_int; assumption.
Qed.

Lemma Z2F_sub (a b : Z) :
  (0 <= b <= a)%Z -> (a < 2 ^ 53)%Z ->
  (Z2F a - Z2F b)%float = Z2F (a - b).
Proof.
  intros Hb H. apply Prim2SF_inj.
  rewrite sub_spec, !Prim2SF_Z2F by lia. apply SFsub_int; assumption.
Qed.

Lemma Z2F_ltb (a b : Z) :
  (0 <= a < 2 ^ 53)%Z -> (0 <= b < 2 ^ 53)%Z ->
  (Z2F a <? Z2F b)%float = (a <? b)%Z.
Proof.
  intros Ha Hb. rewrite FloatAxioms.ltb_spec, !Prim2SF_Z2F by assumption.
  unfold SFltb. rewrite SFcompare_int by assumption.
  unfold Z.ltb. destruct (a ?= b)%Z; reflexivity.
Qed.

Lemma Z2F_leb (a b : Z) :
  (0 <= a < 2 ^ 53)%Z -> (0 <= b < 2 ^ 53)%Z ->
  (Z2F a <=? Z2F b)%float = (a <=? b)%Z.
Proof.
  intros Ha Hb. rewrite FloatAxioms.leb_spec, !Prim2SF_Z2F by assumption.
  unfold SFleb. rewrite SFcompare_int by assumption.
  unfold Z.leb. destruct (a ?= b)%Z; reflexivity.
Qed.

Lemma Z2F_0 : Z2F 0 = 0%float.
Proof. reflexivity. Qed.

(** ** Lists and the Map *)

Section ListFacts.
Context {A : Type}.

Lemma nth_error_replace_eq (l : list A) (i : nat) (x y : A) :
  nth_error l i = Some y -> nth_error (replace_nth i x l) i = Some x.
Proof.
  revert i. induction l as [|z l IH]; intros [|i]; simpl; try discriminate; auto.
Qed.

Lemma nth_error_replace_neq (l : list A) (i j : nat) (x : A) :
  i <> j -> nth_error (replace_nth i x l) j = nth_error l j.
Proof.
  revert i j. induction l as [|z l IH]; intros [|i] [|j] H; simpl; auto.
  congruence.
Qed.

Lemma length_replace_nth (l : list A) (i : nat) (x : A) :
  List.length (replace_nth i x l) = List.length l.
Proof.
  revert i. induction l as [|z l IH]; intros [|i]; simpl; auto.
Qed.

Lemma map_replace_nth {B : Type} (f : A -> B) (l : list A) (i : nat) (x : A) :
  map f (replace_nth i x l) = replace_nth i (f x) (map f l).
Proof.
  revert i. induction l as [|z l IH]; intros [|i]; simpl; auto.
  rewrite IH. reflexivity.
Qed.

Lemma Forall_replace_nth (P : A -> Prop) (l : list A) (i : nat) (x : A) :
  Forall P l -> P x -> Forall P (replace_nth i x l).
Proof.
  intros H Hx. revert i.
  induction H as [|z l Hz Hl IH]; intros [|i]; simpl; auto.
Qed.
End ListFacts.

Section MapFacts.
Context {V : Type}.

Lemma Map_index_lt (k : string) (m : list (string * V)) (i : nat) :
  Map_index k m = Some i -> exists v, nth_error m i = Some (k, v).
Proof.
  revert i. induction m as [|[k' v'] m IH]; simpl; intros i H; [discriminate|].
  destruct (String.eqb_spec k' k) as [->|N].
  - injection H as <-. exists v'. reflexivity.
  - destruct (Map_index k m) as [j|]; [|discriminate].
    injection H as <-. simpl. apply IH. reflexivity.
Qed.

Lemma Map_index_None (k : string) (m : list (string * V)) (i : nat) (v : V) :
  Map_index k m = None -> nth_error m i <> Some (k, v).
Proof.
  revert i. induction m as [|[k' v'] m IH]; intros [|i] H; simpl in *;
    try discriminate.
  - destruct (String.eqb_spec k' k) as [->|N]; [discriminate|]. congruence.
  - destruct (String.eqb_spec k' k) as [->|N]; [discriminate|].
    destruct (Map_index k m); [discriminate|]. apply IH. reflexivity.
Qed.

Lemma Map_index_app_new (k k' : string) (v : V) (m : list (string * V)) :
  Map_index k (m ++ [(k', v)]) =
  match Map_index k m with
  | Some i => Some i
  | None => if String.eqb k' k then Some (List.length m) else None
  end.
Proof.
  induction m as [|[k0 v0] m IH]; simpl.
  - destruct (String.eqb k' k); reflexivity.
  - destruct (String.eqb k0 k); [reflexivity|]. rewrite IH.
    destruct (Map_index k m); [reflexivity|].
    destruct (String.eqb k' k); reflexivity.
Qed.
End MapFacts.

(** ** What each method does, case by case *)

Ltac run_method :=
  unfold bind, ret, throw, getField, setBalance, getTotal, setTotal,
    accountsHas, accountsSet; cbn [fst snd accounts totalBalance].

Lemma validateAmount_run (amount : float) (st : BankImpl) :
  validateAmount amount st =
  if (amount <=? 0)%float then (Throws InvalidAmountError, st)
  else (Returns tt, st).
Proof. unfold validateAmount. destruct (amount <=? 0)%float; reflexivity. Qed.

Lemma deposit_run (this : ref) (amount : float) (st : BankImpl) :
  AccountImpl_deposit this amount st =
  if (amount <=? 0)%float then (Throws InvalidAmountError, st)
  else
    match nth_error (accounts st) this with
    | None => (NoSuchObject, st)
    | Some (k, a) =>
        (Returns tt,
         mkBank (replace_nth this (k, mkAccount (name a) (balance a + amount))
                             (accounts st))
                (totalBalance st + amount))
    end.
Proof.
  unfold AccountImpl_deposit, BankImpl_deposit, bind at 1.
  rewrite validateAmount_run.
  destruct (amount <=? 0)%float; [reflexivity|]. run_method.
  destruct (nth_error (accounts st) this) as [[k a]|] eqn:E; [|reflexivity].
  rewrite E. reflexivity.
Qed.

Lemma withdraw_run (this : ref) (amount : float) (st : BankImpl) :
  AccountImpl_withdraw this amount st =
  if (amount <=? 0)%float then (Throws InvalidAmountError, st)
  else
    match nth_error (accounts st) this with
    | None => (NoSuchObject, st)
    | Some (k, a) =>
        if (balance a <? amount)%float
        then (Throws InsufficientBalanceError, st)
        else
          (Returns tt,
           mkBank (replace_nth this (k, mkAccount (name a) (balance a - amount))
                               (accounts st))
                  (totalBalance st - amount))
    end.
Proof.
  unfold AccountImpl_withdraw, BankImpl_withdraw, bind at 1.
  rewrite validateAmount_run.
  destruct (amount <=? 0)%float; [reflexivity|]. run_method.
  destruct (nth_error (accounts st) this) as [[k a]|] eqn:E; [|reflexivity].
  destruct (balance a <? amount)%float; [reflexivity|].
  rewrite E. reflexivity.
Qed.

Lemma transfer_run (this : ref) (recipient : string) (amount : float)
    (st : BankImpl) :
  AccountImpl_transfer this recipient amount st =
  if (amount <=? 0)%float then (Throws InvalidAmountError, st)
  else
    match nth_error (accounts st) this with
    | None => (NoSuchObject, st)
    | Some (k, a) =>
        if (balance a <? amount)%float
        then (Throws InsufficientBalanceError, st)
        else if String.eqb (name a) recipient then (Returns tt, st)
        else
          match Map_index recipient (accounts st) with
          | None => (Throws MissingAccountError, st)
          | Some r =>
              (Returns tt,
               mkBank (transferred this r amount (accounts st))
                      (totalBalance st))
          end
    end.
Proof.
  unfold AccountImpl_transfer, AccountImpl_receiveTransfer,
    BankImpl_getAccountByName, bind at 1.
  rewrite validateAmount_run.
  destruct (amount <=? 0)%float; [reflexivity|]. run_method.
  destruct (nth_error (accounts st) this) as [[k a]|] eqn:E; [|reflexivity].
  destruct (balance a <? amount)%float; [reflexivity|].
  rewrite E.
  destruct (String.eqb (name a) recipient); [reflexivity|].
  destruct (Map_index recipient (accounts st)) as [r|] eqn:Er; [|reflexivity].
  rewrite E. cbn [accounts totalBalance].
  unfold transferred. rewrite E.
  destruct (Map_index_lt _ _ _ Er) as [v Hr].
  destruct (Nat.eq_dec this r) as [<-|N].
  - repeat (progress cbn [accounts totalBalance name balance]
            || rewrite (nth_error_replace_eq _ _ _ _ E)).
    reflexivity.
  - repeat (progress cbn [accounts totalBalance name balance]
            || rewrite (nth_error_replace_neq _ _ _ _ N) || rewrite Hr).
    reflexivity.
Qed.

Lemma createAccount_run (name : string) (balance : float) (st : BankImpl) :
  BankImpl_createAccount name balance st =
  if (balance <=? 0)%float then (Throws InvalidAmountError, st)
  else if Map_has name (accounts st) then (Throws NameAlreadyExistsError, st)
  else if (String.length name =? 0)%nat then (Throws InvalidNameError, st)
  else
    (Returns (List.length (accounts st)),
     mkBank (accounts st ++ [(name, mkAccount (trim name) balance)])
            (totalBalance st + balance)).
Proof.
  unfold BankImpl_createAccount, AccountImpl_new, bind at 1.
  rewrite validateAmount_run.
  destruct (balance <=? 0)%float eqn:V; [reflexivity|]. run_method.
  unfold Map_has, Map_set.
  destruct (Map_index name (accounts st)) eqn:E; [reflexivity|].
  rewrite validateAmount_run, V.
  destruct (String.length name =? 0)%nat; [reflexivity|].
  repeat (progress cbn [accounts totalBalance] || rewrite E).
  reflexivity.
Qed.

(** ** References stay valid *)

Lemma createAccount_ref (name : string) (balance : float) (st st' : BankImpl)
    (r : ref) :
  BankImpl_createAccount name balance st = (Returns r, st') ->
  nth_error (accounts st') r = Some (name, mkAccount (trim name) balance).
Proof.
  rewrite createAccount_run.
  destruct (balance <=? 0)%float; [discriminate|].
  destruct (Map_has name (accounts st)); [discriminate|].
  destruct (String.length name =? 0)%nat; [discriminate|].
  intros [= <- <-]. cbn [accounts].
  rewrite nth_error_app2, Nat.sub_diag by lia. reflexivity.
Qed.

Lemma transferred_length (this r : ref) (amount : float)
    (m : list (string * AccountImpl)) :
  List.length (transferred this r amount m) = List.length m.
Proof.
  unfold transferred. destruct (nth_error m this) as [[k a]|]; [|reflexivity].
  destruct (nth_error _ r) as [[kr ar]|]; rewrite ?length_replace_nth;
    reflexivity.
Qed.

Lemma call_keeps_refs (c : Call) (st : BankImpl) (r : ref) :
  (r < List.length (accounts st))%nat ->
  (r < List.length (accounts (snd (call c st))))%nat.
Proof.
  intros H. destruct c as [n b|this a|this a|this rc a]; cbn [call].
  - unfold bind, ret. rewrite createAccount_run.
    destruct (b <=? 0)%float; [exact H|].
    destruct (Map_has n (accounts st)); [exact H|].
    destruct (String.length n =? 0)%nat; [exact H|].
    cbn [snd accounts]. rewrite length_app. lia.
  - rewrite deposit_run. destruct (a <=? 0)%float; [exact H|].
    destruct (nth_error (accounts st) this) as [[k acc]|]; [|exact H].
    cbn [snd accounts]. rewrite length_replace_nth. exact H.
  - rewrite withdraw_run. destruct (a <=? 0)%float; [exact H|].
    destruct (nth_error (accounts st) this) as [[k acc]|]; [|exact H].
    destruct (balance acc <? a)%float; [exact H|].
    cbn [snd accounts]. rewrite length_replace_nth. exact H.
  - rewrite transfer_run. destruct (a <=? 0)%float; [exact H|].
    destruct (nth_error (accounts st) this) as [[k acc]|]; [|exact H].
    destruct (balance acc <? a)%float; [exact H|].
    destruct (String.eqb (name acc) rc); [exact H|].
    destruct (Map_index rc (accounts st)); [|exact H].
    cbn [snd accounts]. rewrite transferred_length. exact H.
Qed.

(** ** The tests of the repository (src/impl.test.ts) on the model *)

(** "overall scenario", lines 15-37. *)
Example overall_scenario :
  let st1 := run [CreateAccount "Erin" 50; CreateAccount "Paul" 20] createBank in
  let st2 := run [Deposit 0 30] st1 in
  let st3 := run [Transfer 0 "Paul" 25] st2 in
  let st4 := run [Withdraw 1 30] st3 in
  fst (ManagerImpl_getTotalBankBalance st1) = Returns 70%float /\
  fst (AccountImpl_checkBalance 0 st2) = Returns 80%float /\
  fst (ManagerImpl_getTotalBankBalance st2) = Returns 100%float /\
  fst (AccountImpl_checkBalance 0 st3) = Returns 55%float /\
  fst (AccountImpl_checkBalance 1 st3) = Returns 45%float /\
  fst (ManagerImpl_getTotalBankBalance st3) = Returns 100%float /\
  fst (AccountImpl_checkBalance 1 st4) = Returns 15%float /\
  fst (ManagerImpl_getTotalBankBalance st4) = Returns 70%float.
Proof. repeat split; reflexivity. Qed.

(** "createAccount()", lines 74-88: an invalid balance, an empty name and
    an existing name. *)
Example createAccount_errors :
  fst (BankImpl_createAccount "Erin" (-50) createBank) = Throws InvalidAmountError /\
  fst (BankImpl_createAccount EmptyString 50 createBank) = Throws InvalidNameError /\
  fst (BankImpl_createAccount "Erin" 50 (run [CreateAccount "Erin" 50] createBank))
    = Throws NameAlreadyExistsError.
Proof. repeat split; reflexivity. Qed.

(** "withdraw()" and "transfer()", lines 165-174 and 214-235. *)
Example account_errors :
  let st := run [CreateAccount "Erin" 50; CreateAccount "Paul" 20] createBank in
  fst (AccountImpl_checkBalance 0 (run [Withdraw 0 50] st)) = Returns 0%float /\
  AccountImpl_withdraw 0 70 st = (Throws InsufficientBalanceError, st) /\
  AccountImpl_withdraw 0 (-5) st = (Throws InvalidAmountError, st) /\
  AccountImpl_transfer 0 "John Doe" 20 st = (Throws MissingAccountError, st) /\
  AccountImpl_transfer 0 "Erin" 20 st = (Returns tt, st) /\
  fst (AccountImpl_checkBalance 0 (run [Transfer 0 "Paul" 50] st)) = Returns 0%float /\
  AccountImpl_transfer 0 "Paul" 100 st = (Throws InsufficientBalanceError, st).
Proof. repeat split; reflexivity. Qed.

(** ** Strings: [trim] *)

Lemma trimEnd_idem (s : string) : trimEnd (trimEnd s) = trimEnd s.
Proof.
  induction s as [|c s IH]; [reflexivity|]. cbn [trimEnd].
  destruct (trimEnd s) as [|d t] eqn:E.
  - destruct (isWhiteSpace c) eqn:W; [reflexivity|].
    cbn [trimEnd]. rewrite W. reflexivity.
  - cbn [trimEnd] in *. cbn [trimEnd]. rewrite IH. reflexivity.
Qed.

Lemma trimStart_head (s : string) :
  trimStart s = EmptyString \/
  exists c t, trimStart s = String c t /\ isWhiteSpace c = false.
Proof.
  induction s as [|c s IH]; [left; reflexivity|]. cbn [trimStart].
  destruct (isWhiteSpace c) eqn:W; [exact IH|].
  right. exists c, s. auto.
Qed.

Lemma trim_idem (s : string) : trim (trim s) = trim s.
Proof.
  unfold trim.
  assert (trimStart (trimEnd (trimStart s)) = trimEnd (trimStart s)) as ->.
  { destruct (trimStart_head s) as [->|(c & t & -> & W)]; [reflexivity|].
    cbn [trimEnd]. destruct (trimEnd t); [rewrite W|]; cbn [trimStart];
      rewrite W; reflexivity. }
  apply trimEnd_idem.
Qed.

(** ** The states a client can reach *)

Section Invariants.
Variable P : BankImpl -> Prop.
Hypothesis P_call : forall c st, P st -> P (snd (call c st)).

Lemma trace_invariant (cs : list Call) (st : BankImpl) :
  P st -> Forall P (trace cs st).
Proof.
  revert st. induction cs as [|c cs IH]; intros st H; cbn [trace].
  - constructor; [exact H|constructor].
  - constructor; [exact H|]. apply IH, P_call, H.
Qed.

Lemma run_invariant (cs : list Call) (st : BankImpl) : P st -> P (run cs st).
Proof.
  revert st. induction cs as [|c cs IH]; intros st H; cbn [run]; auto.
Qed.
End Invariants.

Lemma run_app (cs : list Call) (c : Call) (st : BankImpl) :
  run (cs ++ [c]) st = snd (call c (run cs st)).
Proof.
  revert st. induction cs as [|c0 cs IH]; intros st; cbn [app run]; auto.
Qed.

Lemma reachable_call (c : Call) (st : BankImpl) :
  reachable st -> reachable (snd (call c st)).
Proof.
  intros [cs ->]. exists (cs ++ [c]). symmetry. apply run_app.
Qed.

Lemma transferred_names (this r : ref) (amount : float)
    (m : list (string * AccountImpl)) :
  Forall (fun e => name (snd e) = trim (fst e)) m ->
  Forall (fun e => name (snd e) = trim (fst e)) (transferred this r amount m).
Proof.
  intros H. unfold transferred.
  destruct (nth_error m this) as [[k a]|] eqn:E; [|exact H].
  assert (name a = trim k) as Ha
    by (apply nth_error_In in E; rewrite Forall_forall in H; apply (H _ E)).
  assert (Forall (fun e => name (snd e) = trim (fst e))
            (replace_nth this (k, mkAccount (name a) (balance a - amount)) m))
    as H1 by (apply Forall_replace_nth; [exact H|exact Ha]).
  destruct (nth_error _ r) as [[kr ar]|] eqn:Er; [|exact H1].
  apply Forall_replace_nth; [exact H1|].
  apply nth_error_In in Er. rewrite Forall_forall in H1. apply (H1 _ Er).
Qed.

Lemma call_namesTrimmed (c : Call) (st : BankImpl) :
  namesTrimmed st -> namesTrimmed (snd (call c st)).
Proof.
  unfold namesTrimmed. intros H.
  assert (forall this k a, nth_error (accounts st) this = Some (k, a) ->
                           name a = trim k) as Hn.
  { intros this k a E. apply nth_error_In in E.
    rewrite Forall_forall in H. apply (H _ E). }
  destruct c as [n b|this a|this a|this rc a]; cbn [call].
  - unfold bind, ret. rewrite createAccount_run.
    destruct (b <=? 0)%float; [exact H|].
    destruct (Map_has n (accounts st)); [exact H|].
    destruct (String.length n =? 0)%nat; [exact H|].
    cbn [snd accounts]. apply Forall_app. split; [exact H|].
    constructor; [reflexivity|constructor].
  - rewrite deposit_run. destruct (a <=? 0)%float; [exact H|].
    destruct (nth_error (accounts st) this) as [[k acc]|] eqn:E; [|exact H].
    cbn [snd accounts]. apply Forall_replace_nth; [exact H|]. apply (Hn _ _ _ E).
  - rewrite withdraw_run. destruct (a <=? 0)%float; [exact H|].
    destruct (nth_error (accounts st) this) as [[k acc]|] eqn:E; [|exact H].
    destruct (balance acc <? a)%float; [exact H|].
    cbn [snd accounts]. apply Forall_replace_nth; [exact H|]. apply (Hn _ _ _ E).
  - rewrite transfer_run. destruct (a <=? 0)%float; [exact H|].
    destruct (nth_error (accounts st) this) as [[k acc]|] eqn:E; [|exact H].
    destruct (balance acc <? a)%float; [exact H|].
    destruct (String.eqb (name acc) rc); [exact H|].
    destruct (Map_index rc (accounts st)); [|exact H].
    cbn [snd accounts]. apply transferred_names, H.
Qed.

Lemma reachable_namesTrimmed (st : BankImpl) : reachable st -> namesTrimmed st.
Proof.
  intros [cs ->]. apply run_invariant; [exact call_namesTrimmed|].
  constructor.
Qed.

(** ** Validation of amounts *)

Lemma validateAmount_not_nan (amount : float) (st : BankImpl) :
  is_nan amount = false ->
  validateAmount amount st =
  if (0 <? amount)%float then (Returns tt, st)
  else (Throws InvalidAmountError, st).
Proof.
  rewrite validateAmount_run, is_nan_spec, leb_zero_r, ltb_zero_l.
  destruct (Prim2SF amount) as [[]|[]| |[] m e]; cbn; congruence.
Qed.

Lemma positive_passes (amount : float) :
  (0 <? amount)%float = true -> (amount <=? 0)%float = false.
Proof.
  rewrite leb_zero_r, ltb_zero_l.
  destruct (Prim2SF amount) as [[]|[]| |[] m e]; cbn; congruence.
Qed.

Lemma not_positive_refused (amount : float) :
  is_nan amount = false -> (0 <? amount)%float = false ->
  (amount <=? 0)%float = true.
Proof.
  rewrite is_nan_spec, leb_zero_r, ltb_zero_l.
  destruct (Prim2SF amount) as [[]|[]| |[] m e]; cbn; congruence.
Qed.

(** C3, as amended.  For every amount other than NaN, [validateAmount]
    throws [InvalidAmountError] exactly when the amount is not strictly
    greater than 0: zero (of either sign), the negative numbers and
    -Infinity are refused, and every amount strictly greater than 0 is
    accepted, +Infinity included.  Deposit, withdrawal, transfer and
    account creation fail with [InvalidAmountError] on a refused amount,
    leaving the bank untouched, and never do on an accepted one. *)
Theorem validateAmount_spec (amount : float) (st : BankImpl) :
  is_nan amount = false ->
  (validateAmount amount st = (Throws InvalidAmountError, st) <->
   (0 <? amount)%float = false) /\
  ((0 <? amount)%float = true -> validateAmount amount st = (Returns tt, st)) /\
  (forall (this : ref) (recipient nm : string),
     if (0 <? amount)%float
     then fst (AccountImpl_deposit this amount st) <> Throws InvalidAmountError /\
          fst (AccountImpl_withdraw this amount st) <> Throws InvalidAmountError /\
          fst (AccountImpl_transfer this recipient amount st)
            <> Throws InvalidAmountError /\
          fst (BankImpl_createAccount nm amount st)
            <> Throws InvalidAmountError
     else AccountImpl_deposit this amount st = (Throws InvalidAmountError, st) /\
          AccountImpl_withdraw this amount st = (Throws InvalidAmountError, st) /\
          AccountImpl_transfer this recipient amount st
            = (Throws InvalidAmountError, st) /\
          BankImpl_createAccount nm amount st
            = (Throws InvalidAmountError, st)) /\
  validateAmount infinity st = (Returns tt, st) /\
  validateAmount neg_infinity st = (Throws InvalidAmountError, st) /\
  validateAmount 0 st = (Throws InvalidAmountError, st) /\
  validateAmount (-0) st = (Throws InvalidAmountError, st).
Proof.
  intros H. rewrite (validateAmount_not_nan amount st H).
  split; [|split; [|split; [|repeat split; reflexivity]]].
  - destruct (0 <? amount)%float; split; congruence.
  - intros ->. reflexivity.
  - intros this recipient nm.
    rewrite deposit_run, withdraw_run, transfer_run, createAccount_run.
    destruct (0 <? amount)%float eqn:P.
    + rewrite (positive_passes amount P).
      destruct (nth_error (accounts st) this) as [[k a]|];
        destruct (Map_has nm (accounts st));
        destruct (String.length nm =? 0)%nat;
        repeat split; try discriminate;
        destruct (balance a <? amount)%float; try discriminate;
        destruct (String.eqb (name a) recipient); try discriminate;
        destruct (Map_index recipient (accounts st)); discriminate.
    + rewrite (not_positive_refused amount H P). repeat split.
Qed.

Lemma validateAmount_spec_witness :
  (validateAmount (-5) createBank = (Throws InvalidAmountError, createBank) <->
   (0 <? -5)%float = false) /\
  (validateAmount 0.01 createBank = (Returns tt, createBank)).
Proof.
  split.
  - exact (proj1 (validateAmount_spec (-5) createBank eq_refl)).
  - exact (proj1 (proj2 (validateAmount_spec 0.01 createBank eq_refl)) eq_refl).
Defined.

(** C3, as stated, fails: NaN and +Infinity are not positive finite
    numbers, and [validateAmount] accepts both. *)
Lemma validateAmount_accepts_nan_and_infinity :
  (positiveFinite nan = false /\
   validateAmount nan createBank = (Returns tt, createBank)) /\
  (positiveFinite infinity = false /\
   validateAmount infinity createBank = (Returns tt, createBank)).
Proof. repeat split; reflexivity. Qed.

(** ** Account creation *)

(** C4: the code registers and looks up accounts by the untrimmed string.
    After "Erin", the name " Erin" has the same trimmed form and is
    accepted all the same; the bank then holds two accounts named "Erin". *)
Theorem createAccount_same_trimmed_name :
  let st := run [CreateAccount "Erin" 50] createBank in
  trim " Erin" = trim "Erin" /\
  BankImpl_createAccount " Erin" 20 st =
  (Returns 1%nat,
   mkBank [("Erin"%string, mkAccount "Erin" 50);
           (" Erin"%string, mkAccount "Erin" 20)] 70).
Proof. split; reflexivity. Qed.

(** C5: the constructor tests the length of the untrimmed parameter.  A
    name of one space has an empty trimmed form and is accepted: an
    account with the empty name is registered under " " and its balance is
    added to the total. *)
Theorem createAccount_blank_name :
  trim " " = EmptyString /\
  BankImpl_createAccount " " 50 createBank =
  (Returns 0%nat, mkBank [(" "%string, mkAccount EmptyString 50)] 50).
Proof. split; reflexivity. Qed.

(** What the code does guarantee on creation: a duplicate of the exact
    string is refused before anything is built or stored. *)
Lemma createAccount_duplicate_key (name : string) (balance : float)
    (st : BankImpl) :
  (balance <=? 0)%float = false ->
  (BankImpl_createAccount name balance st = (Throws NameAlreadyExistsError, st)
   <-> Map_has name (accounts st) = true).
Proof.
  intros V. rewrite createAccount_run, V.
  destruct (Map_has name (accounts st)); [tauto|].
  destruct (String.length name =? 0)%nat; split; discriminate.
Qed.

(** Of the names not yet registered, [InvalidNameError] is thrown for the
    empty string and for no other: white space alone is accepted. *)
Lemma createAccount_invalid_name (name : string) (balance : float)
    (st : BankImpl) :
  (balance <=? 0)%float = false ->
  Map_has name (accounts st) = false ->
  (BankImpl_createAccount name balance st = (Throws InvalidNameError, st)
   <-> name = EmptyString).
Proof.
  intros V H. rewrite createAccount_run, V, H.
  destruct name; cbn [String.length Nat.eqb]; split; congruence.
Qed.

(** ** Withdrawals and transfers *)

Lemma transferred_sender (this r : ref) (amount : float)
    (m : list (string * AccountImpl)) (k kr : string) (a ar : AccountImpl) :
  nth_error m this = Some (k, a) -> nth_error m r = Some (kr, ar) ->
  r <> this ->
  nth_error (transferred this r amount m) this =
    Some (k, mkAccount (name a) (balance a - amount)) /\
  nth_error (transferred this r amount m) r =
    Some (kr, mkAccount (name ar) (balance ar + amount)) /\
  forall o, o <> this -> o <> r ->
            nth_error (transferred this r amount m) o = nth_error m o.
Proof.
  intros E Er N. unfold transferred. rewrite E.
  rewrite (nth_error_replace_neq _ _ _ _ (not_eq_sym N)), Er.
  split; [|split].
  - rewrite (nth_error_replace_neq _ _ _ _ N).
    apply (nth_error_replace_eq _ _ _ _ E).
  - apply (nth_error_replace_eq _ _ _ (kr, ar)).
    rewrite (nth_error_replace_neq _ _ _ _ (not_eq_sym N)). exact Er.
  - intros o H1 H2.
    rewrite !nth_error_replace_neq by congruence. reflexivity.
Qed.



(** C7, as amended.  A transfer of an accepted and covered amount to a
    recipient string that is no key of the registry and is not the
    sender's own stored name fails with [MissingAccountError], and the
    bank is as before: balances, registry and total. *)
Theorem transfer_to_missing_account (st : BankImpl) (this : ref)
    (k : string) (acc : AccountImpl) (recipient : string) (amount : float) :
  nth_error (accounts st) this = Some (k, acc) ->
  (amount <=? 0)%float = false ->
  (balance acc <? amount)%float = false ->
  Map_index recipient (accounts st) = None ->
  name acc <> recipient ->
  AccountImpl_transfer this recipient amount st =
  (Throws MissingAccountError, st).
Proof.
  intros E V S Hr Hn. apply String.eqb_neq in Hn.
  rewrite transfer_run, V, E, S, Hn, Hr. reflexivity.
Qed.

Lemma transfer_to_missing_account_witness :
  AccountImpl_transfer 0 "John Doe" 20 (run [CreateAccount "Erin" 50] createBank) =
  (Throws MissingAccountError, run [CreateAccount "Erin" 50] createBank).
Proof.
  apply (transfer_to_missing_account _ 0 "Erin" (mkAccount "Erin" 50));
    try reflexivity.
  discriminate.
Defined.

(** C7, as stated, fails: an account created as " Erin" stores the name
    "Erin", which is no key of the registry; its transfer to "Erin" is
    taken for a transfer to itself and returns normally. *)
Lemma transfer_to_unregistered_own_name :
  let st := run [CreateAccount " Erin" 50] createBank in
  Map_index "Erin" (accounts st) = None /\
  (20 <=? 0)%float = false /\
  (50 <? 20)%float = false /\
  AccountImpl_transfer 0 "Erin" 20 st = (Returns tt, st).
Proof. repeat split; reflexivity. Qed.

(** C8.  A transfer of an accepted amount that the balance covers,
    addressed to the account's own stored name, returns normally and
    changes nothing: no balance, not the total.  In a reachable bank the
    stored name is the trimmed form of the name the account was created
    with. *)
Theorem transfer_to_own_name (st : BankImpl) (this : ref)
    (k : string) (acc : AccountImpl) (amount : float) :
  nth_error (accounts st) this = Some (k, acc) ->
  (amount <=? 0)%float = false ->
  (balance acc <? amount)%float = false ->
  AccountImpl_transfer this (name acc) amount st = (Returns tt, st) /\
  (reachable st ->
   name acc = trim k /\
   AccountImpl_transfer this (trim k) amount st = (Returns tt, st)).
Proof.
  intros E V S.
  assert (AccountImpl_transfer this (name acc) amount st = (Returns tt, st))
    as H by (rewrite transfer_run, V, E, S, String.eqb_refl; reflexivity).
  split; [exact H|]. intros R.
  pose proof (reachable_namesTrimmed st R) as Ht. unfold namesTrimmed in Ht.
  rewrite Forall_forall in Ht.
  pose proof (Ht _ (nth_error_In _ _ E)) as Hn. cbn [fst snd] in Hn.
  rewrite <- Hn. auto.
Qed.

Lemma transfer_to_own_name_witness :
  let st := run [CreateAccount "  Erin " 50; CreateAccount "Paul" 20] createBank in
  AccountImpl_transfer 0 "Erin" 20 st = (Returns tt, st) /\
  AccountImpl_transfer 0 (trim "  Erin ") 20 st = (Returns tt, st).
Proof.
  pose proof (transfer_to_own_name
                (run [CreateAccount "  Erin " 50; CreateAccount "Paul" 20]
                     createBank)
                0 "  Erin " (mkAccount "Erin" 50) 20 eq_refl eq_refl eq_refl)
    as [H1 H2].
  split; [exact H1|].
  apply H2. exists [CreateAccount "  Erin " 50; CreateAccount "Paul" 20].
  reflexivity.
Defined.

(** C9, as amended.  A transfer that returns normally, from an account to
    a different account that the recipient string designates, the string
    not being the sender's own stored name, takes [amount] off the
    sender's balance, adds [amount] to the recipient's balance, and leaves
    the total of the bank and every other account as they were. *)
Theorem transfer_moves_amount (st st' : BankImpl) (this r : ref)
    (recipient k kr : string) (acc ar : AccountImpl) (amount : float) :
  AccountImpl_transfer this recipient amount st = (Returns tt, st') ->
  nth_error (accounts st) this = Some (k, acc) ->
  name acc <> recipient ->
  Map_index recipient (accounts st) = Some r ->
  nth_error (accounts st) r = Some (kr, ar) ->
  r <> this ->
  nth_error (accounts st') this =
    Some (k, mkAccount (name acc) (balance acc - amount)) /\
  nth_error (accounts st') r =
    Some (kr, mkAccount (name ar) (balance ar + amount)) /\
  totalBalance st' = totalBalance st /\
  forall o, o <> this -> o <> r ->
            nth_error (accounts st') o = nth_error (accounts st) o.
Proof.
  intros T E Hn Hr Er N. apply String.eqb_neq in Hn.
  rewrite transfer_run, E, Hn, Hr in T.
  destruct (amount <=? 0)%float; [discriminate|].
  destruct (balance acc <? amount)%float; [discriminate|].
  injection T as <-. cbn [accounts totalBalance].
  destruct (transferred_sender this r amount _ _ _ _ _ E Er N) as (H1 & H2 & H3).
  auto.
Qed.

Lemma transfer_moves_amount_witness :
  let st := run [CreateAccount "Erin" 50; CreateAccount "Paul" 20;
                 Deposit 0 30] createBank in
  let st' := snd (AccountImpl_transfer 0 "Paul" 25 st) in
  nth_error (accounts st') 0 = Some ("Erin"%string, mkAccount "Erin" (80 - 25)) /\
  nth_error (accounts st') 1 = Some ("Paul"%string, mkAccount "Paul" (20 + 25)) /\
  totalBalance st' = totalBalance st.
Proof.
  pose proof (transfer_moves_amount
                (run [CreateAccount "Erin" 50; CreateAccount "Paul" 20;
                      Deposit 0 30] createBank)
                _ 0 1 "Paul" "Erin" "Paul" (mkAccount "Erin" 80)
                (mkAccount "Paul" 20) 25 eq_refl eq_refl
                ltac:(discriminate) eq_refl eq_refl ltac:(discriminate))
    as (H1 & H2 & H3 & _).
  exact (conj H1 (conj H2 H3)).
Defined.

(** C9, as stated, fails: after "Erin" and " Erin", both accounts store
    the name "Erin".  The second one's transfer to "Erin", the key of the
    first and distinct account, is taken for a transfer to itself: it
    returns normally and no balance moves. *)
Lemma transfer_to_namesake_moves_nothing :
  let st := run [CreateAccount "Erin" 50; CreateAccount " Erin" 20] createBank in
  nth_error (accounts st) 1 = Some (" Erin"%string, mkAccount "Erin" 20) /\
  BankImpl_getAccountByName "Erin" st = (Returns 0%nat, st) /\
  nth_error (accounts st) 0 = Some ("Erin"%string, mkAccount "Erin" 50) /\
  (10 <=? 0)%float = false /\
  (20 <? 10)%float = false /\
  AccountImpl_transfer 1 "Erin" 10 st = (Returns tt, st).
Proof. repeat split; reflexivity. Qed.

(** ** Names with surrounding white space *)

(** C10, as amended.  In a reachable bank, an account created with a name
    that trimming changes is registered under the untrimmed string and
    stores the trimmed name.  From another account, a transfer of an
    accepted and covered amount addressed to the untrimmed string succeeds
    and moves the amount; one addressed to the trimmed form fails with
    [MissingAccountError] and changes nothing, provided the trimmed form is
    not itself a key of the registry nor the sender's own stored name. *)
Theorem untrimmed_key_trimmed_name (st st' : BankImpl) (nm : string)
    (bal : float) (r : ref) :
  reachable st ->
  BankImpl_createAccount nm bal st = (Returns r, st') ->
  trim nm <> nm ->
  nth_error (accounts st') r = Some (nm, mkAccount (trim nm) bal) /\
  forall (s : ref) (ks : string) (sender : AccountImpl) (amount : float),
    s <> r ->
    nth_error (accounts st') s = Some (ks, sender) ->
    (amount <=? 0)%float = false ->
    (balance sender <? amount)%float = false ->
    (Map_index (trim nm) (accounts st') = None ->
     name sender <> trim nm ->
     AccountImpl_transfer s (trim nm) amount st' =
     (Throws MissingAccountError, st')) /\
    (exists st'',
       AccountImpl_transfer s nm amount st' = (Returns tt, st'') /\
       nth_error (accounts st'') s =
         Some (ks, mkAccount (name sender) (balance sender - amount)) /\
       nth_error (accounts st'') r =
         Some (nm, mkAccount (trim nm) (bal + amount)) /\
       totalBalance st'' = totalBalance st').
Proof.
  intros Hreach C Htrim.
  assert (reachable st') as Hreach'.
  { replace st' with (snd (call (CreateAccount nm bal) st))
      by (cbn [call]; unfold bind, ret; rewrite C; reflexivity).
    apply reachable_call, Hreach. }
  rewrite createAccount_run in C.
  destruct (bal <=? 0)%float; [discriminate|].
  destruct (Map_has nm (accounts st)) eqn:Hhas; [discriminate|].
  destruct (String.length nm =? 0)%nat; [discriminate|].
  injection C as <- <-. cbn [accounts totalBalance].
  assert (nth_error (accounts st ++ [(nm, mkAccount (trim nm) bal)])
                    (List.length (accounts st)) =
          Some (nm, mkAccount (trim nm) bal)) as Er.
  { rewrite nth_error_app2, Nat.sub_diag by lia. reflexivity. }
  assert (Map_index nm (accounts st ++ [(nm, mkAccount (trim nm) bal)]) =
          Some (List.length (accounts st))) as Hidx.
  { rewrite Map_index_app_new. unfold Map_has in Hhas.
    destruct (Map_index nm (accounts st)); [discriminate|].
    rewrite String.eqb_refl. reflexivity. }
  split; [exact Er|].
  intros s ks sender amount Ns Es V S. split.
  - intros Hnone Hn.
    apply String.eqb_neq in Hn.
    rewrite transfer_run, V. cbn [accounts totalBalance].
    rewrite Es, S, Hn, Hnone. reflexivity.
  - assert (name sender <> nm) as Hn.
    { pose proof (reachable_namesTrimmed _ Hreach') as Ht.
      unfold namesTrimmed in Ht. cbn [accounts] in Ht.
      rewrite Forall_forall in Ht.
      pose proof (Ht _ (nth_error_In _ _ Es)) as Hs. cbn [fst snd] in Hs.
      intros Heq. apply Htrim. rewrite <- Heq, Hs. apply trim_idem. }
    apply String.eqb_neq in Hn.
    eexists. rewrite transfer_run, V. cbn [accounts totalBalance].
    rewrite Es, S, Hn, Hidx. split; [reflexivity|]. cbn [accounts totalBalance].
    destruct (transferred_sender s (List.length (accounts st)) amount _ _ _ _ _
                Es Er (not_eq_sym Ns)) as (H1 & H2 & _).
    auto.
Qed.

Lemma untrimmed_key_trimmed_name_witness :
  let st' := run [CreateAccount "Paul" 30; CreateAccount " Erin" 20] createBank in
  nth_error (accounts st') 1 = Some (" Erin"%string, mkAccount "Erin" 20) /\
  AccountImpl_transfer 0 "Erin" 10 st' = (Throws MissingAccountError, st') /\
  fst (AccountImpl_transfer 0 " Erin" 10 st') = Returns tt.
Proof.
  destruct (untrimmed_key_trimmed_name
              (run [CreateAccount "Paul" 30] createBank) _ " Erin" 20 1
              (ex_intro _ [CreateAccount "Paul" 30] eq_refl) eq_refl
              ltac:(discriminate)) as [H1 H2].
  destruct (H2 0%nat "Paul"%string (mkAccount "Paul" 30) 10%float
               ltac:(discriminate) eq_refl eq_refl eq_refl) as [H3 H4].
  split; [exact H1|]. split.
  - apply H3; [reflexivity|discriminate].
  - reflexivity.
Defined.

(** C10, as stated, fails when the trimmed form is itself registered:
    after "Erin" and " Erin", a transfer from a third account to "Erin"
    does not fail; it pays the account created as "Erin". *)
Lemma transfer_to_trimmed_form_succeeds :
  let st := run [CreateAccount "Erin" 50; CreateAccount " Erin" 20;
                 CreateAccount "Paul" 30] createBank in
  nth_error (accounts st) 1 = Some (" Erin"%string, mkAccount "Erin" 20) /\
  trim " Erin" = "Erin"%string /\
  AccountImpl_transfer 2 "Erin" 10 st =
  (Returns tt,
   mkBank [("Erin"%string, mkAccount "Erin" 60);
           (" Erin"%string, mkAccount "Erin" 20);
           ("Paul"%string, mkAccount "Paul" 20)] 100).
Proof. repeat split; reflexivity. Qed.

(** ** Balances stay non-negative *)

(** A property [P] of balances that opening an account establishes and
    that additions and covered subtractions of amounts keep, for amounts
    that pass [validateAmount] and satisfy [Q], holds of every balance in
    every state. *)
Section BalanceInvariant.
Variable P : float -> Prop.
Variable Q : float -> Prop.
Hypothesis P_open : forall a, (a <=? 0)%float = false -> Q a -> P a.
Hypothesis P_add :
  forall b a, P b -> (a <=? 0)%float = false -> Q a -> P (b + a)%float.
Hypothesis P_sub :
  forall b a, P b -> (a <=? 0)%float = false -> Q a ->
              (b <? a)%float = false -> P (b - a)%float.

Let all (m : list (string * AccountImpl)) : Prop :=
  Forall (fun e => P (balance (snd e))) m.

Lemma all_nth (m : list (string * AccountImpl)) (i : nat)
    (k : string) (a : AccountImpl) :
  all m -> nth_error m i = Some (k, a) -> P (balance a).
Proof.
  intros H E. unfold all in H. rewrite Forall_forall in H.
  apply (H _ (nth_error_In _ _ E)).
Qed.

Lemma call_all (c : Call) (st : BankImpl) :
  Q (amountOf c) -> all (accounts st) -> all (accounts (snd (call c st))).
Proof.
  intros F H.
  destruct c as [n b|this a|this a|this rc a]; cbn [call amountOf] in *.
  - unfold bind, ret. rewrite createAccount_run.
    destruct (b <=? 0)%float eqn:V; [exact H|].
    destruct (Map_has n (accounts st)); [exact H|].
    destruct (String.length n =? 0)%nat; [exact H|].
    cbn [snd accounts]. apply Forall_app. split; [exact H|].
    constructor; [|constructor]. cbn [snd balance]. auto.
  - rewrite deposit_run. destruct (a <=? 0)%float eqn:V; [exact H|].
    destruct (nth_error (accounts st) this) as [[k acc]|] eqn:E; [|exact H].
    cbn [snd accounts]. apply Forall_replace_nth; [exact H|]. cbn [snd balance].
    apply P_add; auto. apply (all_nth _ _ _ _ H E).
  - rewrite withdraw_run. destruct (a <=? 0)%float eqn:V; [exact H|].
    destruct (nth_error (accounts st) this) as [[k acc]|] eqn:E; [|exact H].
    destruct (balance acc <? a)%float eqn:S; [exact H|].
    cbn [snd accounts]. apply Forall_replace_nth; [exact H|]. cbn [snd balance].
    apply P_sub; auto. apply (all_nth _ _ _ _ H E).
  - rewrite transfer_run. destruct (a <=? 0)%float eqn:V; [exact H|].
    destruct (nth_error (accounts st) this) as [[k acc]|] eqn:E; [|exact H].
    destruct (balance acc <? a)%float eqn:S; [exact H|].
    destruct (String.eqb (name acc) rc); [exact H|].
    destruct (Map_index rc (accounts st)) as [r|]; [|exact H].
    cbn [snd accounts]. unfold transferred. rewrite E.
    assert (all (replace_nth this (k, mkAccount (name acc) (balance acc - a))
                             (accounts st))) as H1.
    { apply Forall_replace_nth; [exact H|]. cbn [snd balance].
      apply P_sub; auto. apply (all_nth _ _ _ _ H E). }
    destruct (nth_error _ r) as [[kr ar]|] eqn:Er; [|exact H1].
    apply Forall_replace_nth; [exact H1|]. cbn [snd balance].
    apply P_add; auto. apply (all_nth _ _ _ _ H1 Er).
Qed.

Lemma trace_all (cs : list Call) (st : BankImpl) :
  Forall (fun c => Q (amountOf c)) cs ->
  Forall P (balances st) ->
  Forall (fun st' => Forall P (balances st')) (trace cs st).
Proof.
  assert (forall st', all (accounts st') <-> Forall P (balances st')) as Hb
    by (intros st'; unfold all, balances; rewrite Forall_map; tauto).
  revert st. induction cs as [|c cs IH]; intros st F H; cbn [trace].
  - constructor; [exact H|constructor].
  - inversion F as [|? ? Fc Fcs]; subst. constructor; [exact H|].
    apply IH; [exact Fcs|]. apply Hb, call_all, Hb; assumption.
Qed.
End BalanceInvariant.

(** C2, as amended.  Whatever calls are made, succeeding or failing, no
    deposit, withdrawal or transfer drives a balance negative: before the
    first call and after each call, no balance is less than 0.  When
    moreover every amount passed is a finite number (neither NaN nor an
    infinity), every balance is greater than or equal to 0 before the
    first call and after each call. *)
Theorem balances_stay_nonnegative (cs : list Call) :
  Forall balancesNotNegative (trace cs createBank) /\
  (Forall (fun c => is_finite (amountOf c) = true) cs ->
   Forall balancesNonNegative (trace cs createBank)).
Proof.
  split.
  - apply (trace_all (fun b => (b <? 0)%float = false) (fun _ => True)).
    + intros a V _. rewrite ltb_zero_r, negb_false_iff.
      pose proof (accepted_spec a V) as Ha.
      destruct (Prim2SF a) as [|[]| |[]]; try discriminate; reflexivity.
    + intros b a Hb V _. apply add_notneg; assumption.
    + intros b a Hb V _ S. apply sub_notneg; assumption.
    + clear. induction cs; constructor; auto.
    + constructor.
  - intros F.
    apply (trace_all (fun b => (0 <=? b)%float = true)
                     (fun a => is_finite a = true)).
    + intros a V Fa. rewrite leb_zero_l.
      pose proof (posfin_spec a V Fa) as Hp.
      destruct (Prim2SF a) as [| | |[]]; try discriminate; reflexivity.
    + intros b a Hb V Fa. apply add_nonneg; assumption.
    + intros b a Hb V Fa S. apply sub_nonneg; assumption.
    + exact F.
    + constructor.
Qed.

Lemma balances_stay_nonnegative_witness :
  Forall balancesNonNegative
    (trace [CreateAccount "Erin" 50; Withdraw 0 70; Withdraw 0 50;
            Deposit 0 (-5); Transfer 0 "Paul" 0.5] createBank).
Proof.
  apply balances_stay_nonnegative. repeat constructor.
Defined.

(** C2, as stated, fails: NaN passes [validateAmount] and becomes the
    balance; +Infinity passes too, and withdrawing +Infinity from it
    leaves NaN.  NaN is not greater than or equal to 0. *)
Lemma balance_can_be_nan :
  allReturn [CreateAccount "Erin" nan] createBank = true /\
  balances (run [CreateAccount "Erin" nan] createBank) = [nan] /\
  allReturn [CreateAccount "Erin" infinity; Withdraw 0 infinity] createBank = true /\
  balances (run [CreateAccount "Erin" infinity; Withdraw 0 infinity] createBank)
    = [nan] /\
  (0 <=? nan)%float = false /\
  ~ balancesNonNegative (run [CreateAccount "Erin" nan] createBank).
Proof.
  repeat split; try reflexivity.
  intros H. inversion H as [|? ? H1 _]. discriminate H1.
Qed.

(** ** The total of the bank and the sum of the balances *)

Lemma two53 : (2 ^ 53 = MAX_SAFE_INTEGER + 1)%Z.
Proof. reflexivity. Qed.

Section SafeIntegers.
Local Open Scope Z_scope.

Lemma Zsum_app (zs : list Z) (z : Z) : Zsum (zs ++ [z]) = Zsum zs + z.
Proof.
  unfold Zsum. induction zs as [|y zs IH]; cbn [fold_right app] in *; lia.
Qed.

Lemma Zsum_replace (zs : list Z) (i : nat) (zi v : Z) :
  nth_error zs i = Some zi -> Zsum (replace_nth i v zs) = Zsum zs - zi + v.
Proof.
  unfold Zsum. revert i. induction zs as [|y zs IH]; intros [|i] E;
    cbn [nth_error replace_nth] in *; try discriminate.
  - injection E as ->. cbn [fold_right]. lia.
  - cbn [fold_right] in *. rewrite (IH _ E). lia.
Qed.

Lemma Zsum_nonneg (zs : list Z) : Forall (fun z => 0 <= z) zs -> 0 <= Zsum zs.
Proof.
  unfold Zsum. intros H. induction H; cbn [fold_right]; lia.
Qed.

Lemma Zsum_bound (zs : list Z) (i : nat) (zi : Z) :
  Forall (fun z => 0 <= z) zs -> nth_error zs i = Some zi ->
  0 <= zi <= Zsum zs.
Proof.
  unfold Zsum. intros H. revert i.
  induction H as [|y zs Hy Hzs IH]; intros [|i] E;
    cbn [nth_error] in *; try discriminate.
  - injection E as ->. pose proof (Zsum_nonneg zs Hzs) as N.
    unfold Zsum in N. cbn [fold_right]. lia.
  - cbn [fold_right] in *. specialize (IH _ E). lia.
Qed.

Lemma holds_nth (m : list (string * AccountImpl)) (zs : list Z) (i : nat)
    (k : string) (a : AccountImpl) :
  holds m zs -> nth_error m i = Some (k, a) ->
  exists zi, nth_error zs i = Some zi /\ balance a = Z2F zi /\
             0 <= zi <= Zsum zs.
Proof.
  intros [Hm Hz] E.
  pose proof (map_nth_error (fun e => balance (snd e)) _ _ E) as E'.
  rewrite Hm in E'. cbn [snd] in E'.
  destruct (nth_error zs i) as [zi|] eqn:Ez.
  - rewrite (map_nth_error Z2F _ _ Ez) in E'. injection E' as E'.
    exists zi. split; [reflexivity|]. split; [congruence|].
    apply (Zsum_bound zs i zi Hz Ez).
  - apply nth_error_None in Ez.
    assert (i < List.length (map Z2F zs))%nat
      by (apply nth_error_Some; congruence).
    rewrite length_map in *. lia.
Qed.

Lemma holds_replace (m : list (string * AccountImpl)) (zs : list Z) (i : nat)
    (k : string) (n : string) (v : Z) :
  holds m zs -> 0 <= v ->
  holds (replace_nth i (k, mkAccount n (Z2F v)) m) (replace_nth i v zs).
Proof.
  intros [Hm Hz] Hv. split.
  - rewrite !map_replace_nth, Hm. reflexivity.
  - apply Forall_replace_nth; assumption.
Qed.

Lemma fold_left_Z2F (zs : list Z) (acc : Z) :
  0 <= acc -> Forall (fun z => 0 <= z) zs ->
  acc + Zsum zs <= MAX_SAFE_INTEGER ->
  fold_left (fun s b => (s + b)%float) (map Z2F zs) (Z2F acc) =
  Z2F (acc + Zsum zs).
Proof.
  unfold Zsum. intros Ha H. revert acc Ha.
  induction H as [|y zs Hy Hzs IH]; intros acc Ha B;
    cbn [map fold_left fold_right] in *.
  - f_equal. lia.
  - pose proof (Zsum_nonneg zs Hzs) as N. unfold Zsum in N.
    rewrite Z2F_add by (rewrite ?two53; lia).
    rewrite IH by lia. f_equal. lia.
Qed.

Lemma safeState_total (st : BankImpl) (zs : list Z) :
  safeState st zs -> Zsum zs <= MAX_SAFE_INTEGER ->
  totalBalance st = sumBalances st.
Proof.
  intros [[Hm Hz] Ht] B. unfold sumBalances, balances.
  rewrite Hm, Ht. change 0%float with (Z2F 0).
  rewrite fold_left_Z2F by (auto; lia). reflexivity.
Qed.

Lemma Z2F_invalid (z : Z) :
  0 <= z <= MAX_SAFE_INTEGER -> (Z2F z <=? 0)%float = (z <=? 0).
Proof.
  intros H. change 0%float with (Z2F 0).
  apply Z2F_leb; rewrite two53; unfold MAX_SAFE_INTEGER in *; lia.
Qed.

Lemma call_safeState (c : ZCall) (st : BankImpl) (zs : list Z) (B : Z) :
  safeState st zs -> Zsum zs <= B ->
  0 <= ZamountOf c <= MAX_SAFE_INTEGER ->
  B + inflow c <= MAX_SAFE_INTEGER ->
  exists zs', safeState (snd (call (toCall c) st)) zs' /\
              Zsum zs' <= B + inflow c.
Proof.
  intros [Hh Ht] HB Hc HI.
  assert (safeState st zs /\ Zsum zs <= B + inflow c) as Same.
  { split; [split; assumption|].
    destruct c; cbn [inflow ZamountOf] in *; lia. }
  pose proof two53 as T.
  destruct c as [n z|this z|this z|this rc z];
    cbn [toCall call inflow ZamountOf] in *.
  - unfold bind, ret. rewrite createAccount_run, (Z2F_invalid z Hc).
    destruct (Z.leb_spec z 0) as [|Hz]; [exists zs; exact Same|].
    destruct (Map_has n (accounts st)); [exists zs; exact Same|].
    destruct (String.length n =? 0)%nat; [exists zs; exact Same|].
    cbn [snd]. exists (zs ++ [z]). rewrite Zsum_app.
    split; [|lia]. destruct Hh as [Hm Hz']. split; [split|]; cbn [accounts totalBalance].
    + rewrite !map_app, Hm. reflexivity.
    + apply Forall_app. split; [exact Hz'|]. constructor; [lia|constructor].
    + rewrite Ht, Zsum_app. pose proof (Zsum_nonneg zs Hz').
      apply Z2F_add; lia.
  - rewrite deposit_run, (Z2F_invalid z Hc).
    destruct (Z.leb_spec z 0) as [|Hz]; [exists zs; exact Same|].
    destruct (nth_error (accounts st) this) as [[k a]|] eqn:E;
      [|exists zs; exact Same].
    destruct (holds_nth _ _ _ _ _ Hh E) as (zi & Ez & Eb & Bz).
    cbn [snd]. exists (replace_nth this (zi + z) zs).
    rewrite (Zsum_replace _ _ _ _ Ez).
    split; [|lia]. split; cbn [accounts totalBalance].
    + rewrite Eb, Z2F_add by lia. apply holds_replace; [exact Hh|lia].
    + rewrite Ht, Z2F_add, (Zsum_replace _ _ _ _ Ez) by lia. f_equal. lia.
  - rewrite withdraw_run, (Z2F_invalid z Hc).
    destruct (Z.leb_spec z 0) as [|Hz]; [exists zs; exact Same|].
    destruct (nth_error (accounts st) this) as [[k a]|] eqn:E;
      [|exists zs; exact Same].
    destruct (holds_nth _ _ _ _ _ Hh E) as (zi & Ez & Eb & Bz).
    rewrite Eb, Z2F_ltb by lia.
    destruct (Z.ltb_spec zi z) as [|Hle]; [exists zs; exact Same|].
    cbn [snd]. exists (replace_nth this (zi - z) zs).
    rewrite (Zsum_replace _ _ _ _ Ez).
    split; [|lia]. split; cbn [accounts totalBalance].
    + rewrite Z2F_sub by lia. apply holds_replace; [exact Hh|lia].
    + rewrite Ht, Z2F_sub, (Zsum_replace _ _ _ _ Ez) by lia. f_equal. lia.
  - rewrite transfer_run, (Z2F_invalid z Hc).
    destruct (Z.leb_spec z 0) as [|Hz]; [exists zs; exact Same|].
    destruct (nth_error (accounts st) this) as [[k a]|] eqn:E;
      [|exists zs; exact Same].
    destruct (holds_nth _ _ _ _ _ Hh E) as (zi & Ez & Eb & Bz).
    rewrite Eb, Z2F_ltb by lia.
    destruct (Z.ltb_spec zi z) as [|Hle]; [exists zs; exact Same|].
    destruct (String.eqb (name a) rc); [exists zs; exact Same|].
    destruct (Map_index rc (accounts st)) as [r|] eqn:Em;
      [|exists zs; exact Same].
    cbn [snd accounts totalBalance]. unfold transferred. rewrite E, Eb.
    rewrite Z2F_sub by lia.
    pose proof (holds_replace _ _ this k (name a) (zi - z) Hh ltac:(lia)) as H1.
    pose proof (Zsum_replace _ _ _ (zi - z) Ez) as S1.
    destruct (nth_error (replace_nth this _ (accounts st)) r)
      as [[kr ar]|] eqn:Er.
    + destruct (holds_nth _ _ _ _ _ H1 Er) as (zr & Ezr & Ebr & Bzr).
      exists (replace_nth r (zr + z) (replace_nth this (zi - z) zs)).
      rewrite (Zsum_replace _ _ _ _ Ezr), S1.
      split; [|lia]. split; cbn [accounts totalBalance].
      * rewrite Ebr, Z2F_add by lia. apply holds_replace; [exact H1|lia].
      * rewrite Ht, (Zsum_replace _ _ _ _ Ezr), S1. f_equal. lia.
    + exists (replace_nth this (zi - z) zs). rewrite S1.
      split; [|lia]. split; cbn [accounts totalBalance]; [exact H1|].
      exfalso. apply nth_error_None in Er.
      rewrite length_replace_nth in Er.
      destruct (Map_index_lt _ _ _ Em) as [v Ev].
      assert (r < List.length (accounts st))%nat
        by (apply nth_error_Some; congruence).
      lia.
Qed.
End SafeIntegers.

Lemma inflow_nonneg (c : ZCall) :
  (0 <= ZamountOf c <= MAX_SAFE_INTEGER)%Z -> (0 <= inflow c)%Z.
Proof. destruct c; cbn [inflow ZamountOf]; lia. Qed.

Lemma trace_safeState (cs : list ZCall) (st : BankImpl) (zs : list Z) (B : Z) :
  safeState st zs -> (Zsum zs <= B)%Z ->
  Forall (fun c => 0 <= ZamountOf c <= MAX_SAFE_INTEGER)%Z cs ->
  (B + totalInflow cs <= MAX_SAFE_INTEGER)%Z ->
  Forall (fun st => totalBalance st = sumBalances st) (trace (map toCall cs) st).
Proof.
  revert st zs B. induction cs as [|c cs IH]; intros st zs B Hs HB F HI;
    cbn [map trace totalInflow fold_right] in *.
  - constructor; [|constructor]. apply (safeState_total st zs Hs). lia.
  - inversion F as [|? ? Fc Fcs]; subst.
    assert (0 <= totalInflow cs)%Z as Hin.
    { clear - Fcs. unfold totalInflow.
      induction Fcs as [|c cs Hc _ IH]; cbn [fold_right]; [lia|].
      pose proof (inflow_nonneg c Hc). lia. }
    unfold totalInflow in Hin. pose proof (inflow_nonneg c Fc) as Hc.
    constructor; [apply (safeState_total st zs Hs); lia|].
    destruct (call_safeState c st zs B Hs HB Fc ltac:(lia)) as (zs' & Hs' & HB').
    apply (IH _ zs' (B + inflow c)%Z); auto.
    unfold totalInflow. lia.
Qed.

(** C1, as amended.  When every amount passed is an integer between 0 and
    [Number.MAX_SAFE_INTEGER], and the amounts passed to [createAccount]
    and [deposit] add up to at most [Number.MAX_SAFE_INTEGER], then
    before the first call and after each call, succeeding or failing, the
    total of the bank equals the sum of the balances of its accounts. *)
Theorem total_is_sum_of_balances (cs : list ZCall) :
  Forall (fun c => 0 <= ZamountOf c <= MAX_SAFE_INTEGER)%Z cs ->
  (totalInflow cs <= MAX_SAFE_INTEGER)%Z ->
  Forall (fun st => totalBalance st = sumBalances st)
         (trace (map toCall cs) createBank).
Proof.
  intros F HI. apply (trace_safeState cs createBank [] 0%Z); auto.
  - split; [split; [reflexivity|constructor]|reflexivity].
  - reflexivity.
Qed.

Lemma total_is_sum_of_balances_witness :
  Forall (fun st => totalBalance st = sumBalances st)
         (trace [CreateAccount "Erin" 50; CreateAccount "Paul" 20;
                 Deposit 0 30; Transfer 0 "Paul" 25; Withdraw 1 30]
                createBank).
Proof.
  apply (total_is_sum_of_balances
           [ZCreateAccount "Erin" 50; ZCreateAccount "Paul" 20;
            ZDeposit 0 30; ZTransfer 0 "Paul" 25; ZWithdraw 1 30]).
  - repeat constructor; discriminate.
  - discriminate.
Defined.

(** C1, as stated, fails.  With the amounts 0.1 and 0.2 the total, kept
    up by additions and subtractions of [number]s, drifts away from the
    sum of the balances; with integer amounts it does so once 2^53 is
    reached.  Every call of both runs returns normally. *)
Lemma total_differs_from_sum :
  (let cs := [CreateAccount "Erin" 0.1; CreateAccount "Paul" 0.2;
              Withdraw 0 0.1] in
   allReturn cs createBank = true /\
   totalBalance (run cs createBank) = 0.20000000000000004%float /\
   sumBalances (run cs createBank) = 0.2%float /\
   (totalBalance (run cs createBank) =? sumBalances (run cs createBank))%float
     = false) /\
  (let cs := [CreateAccount "Erin" 9007199254740992; CreateAccount "Paul" 1;
              Withdraw 0 9007199254740992] in
   allReturn cs createBank = true /\
   totalBalance (run cs createBank) = 0%float /\
   sumBalances (run cs createBank) = 1%float).
Proof. repeat split; reflexivity. Qed.

(** * Further properties of the code *)

(** ** More on lists and the Map *)

Section MoreListFacts.
Context {A : Type}.

Lemma replace_nth_same (l : list A) (i : nat) (x : A) :
  nth_error l i = Some x -> replace_nth i x l = l.
Proof.
  revert i. induction l as [|y l IH]; intros [|i] E;
    cbn [nth_error replace_nth] in *; try discriminate.
  - congruence.
  - rewrite (IH _ E). reflexivity.
Qed.

Lemma replace_nth_twice (l : list A) (i : nat) (x y : A) :
  replace_nth i y (replace_nth i x l) = replace_nth i y l.
Proof.
  revert i. induction l as [|z l IH]; intros [|i]; cbn [replace_nth]; auto.
  rewrite IH. reflexivity.
Qed.
End MoreListFacts.

Lemma Map_has_false {V : Type} (k : string) (m : list (string * V)) :
  Map_has k m = false <-> ~ In k (map fst m).
Proof.
  unfold Map_has. induction m as [|[k' v'] m IH]; cbn [Map_index map fst In].
  - tauto.
  - destruct (String.eqb_spec k' k) as [->|N].
    + split; [discriminate|]. intros H. exfalso. apply H. left. reflexivity.
    + destruct (Map_index k m); cbn [option_map] in *.
      * split; [discriminate|]. intros H. exfalso.
        destruct IH as [_ IH]. assert (true = false); [|discriminate].
        apply IH. intros Hin. apply H. right. exact Hin.
      * split; [|reflexivity]. intros _ [E|Hin]; [congruence|].
        destruct IH as [IH _]. apply (IH eq_refl Hin).
Qed.

(** With pairwise distinct keys, an entry is found at its own place. *)
Lemma Map_index_NoDup {V : Type} (m : list (string * V)) (i : nat)
    (k : string) (v : V) :
  NoDup (map fst m) -> nth_error m i = Some (k, v) -> Map_index k m = Some i.
Proof.
  revert i. induction m as [|[k' v'] m IH]; intros [|i] Hn E;
    cbn [nth_error Map_index map fst] in *; try discriminate.
  - injection E as -> ->. rewrite String.eqb_refl. reflexivity.
  - inversion Hn as [|? ? Hnotin Hn']; subst.
    destruct (String.eqb_spec k' k) as [->|N].
    + exfalso. apply Hnotin. apply nth_error_In in E.
      apply (in_map fst) in E. exact E.
    + rewrite (IH _ Hn' E). reflexivity.
Qed.

(** ** What a successful operation changes, and what it leaves alone *)

(** X1.  A deposit of an accepted amount into an account returns
    normally; it adds the amount to the balance of that account and to
    the total of the bank, and leaves the key and name of the account,
    every other account and the number of accounts as they were. *)
Theorem deposit_effect (st : BankImpl) (this : ref) (k : string)
    (acc : AccountImpl) (amount : float) :
  nth_error (accounts st) this = Some (k, acc) ->
  (amount <=? 0)%float = false ->
  exists st',
    AccountImpl_deposit this amount st = (Returns tt, st') /\
    nth_error (accounts st') this =
      Some (k, mkAccount (name acc) (balance acc + amount)) /\
    totalBalance st' = (totalBalance st + amount)%float /\
    (forall o, o <> this ->
               nth_error (accounts st') o = nth_error (accounts st) o) /\
    List.length (accounts st') = List.length (accounts st).
Proof.
  intros E V. eexists. rewrite deposit_run, V, E.
  split; [reflexivity|]. cbn [accounts totalBalance].
  split; [apply (nth_error_replace_eq _ _ _ _ E)|].
  split; [reflexivity|]. split.
  - intros o N. apply nth_error_replace_neq. congruence.
  - apply length_replace_nth.
Qed.

Lemma deposit_effect_witness :
  exists st',
    AccountImpl_deposit 0 25 (run [CreateAccount "Erin" 50] createBank)
      = (Returns tt, st') /\
    nth_error (accounts st') 0 = Some ("Erin"%string, mkAccount "Erin" (50 + 25)) /\
    totalBalance st' = (50 + 25)%float.
Proof.
  destruct (deposit_effect (run [CreateAccount "Erin" 50] createBank) 0 "Erin"
              (mkAccount "Erin" 50) 25 eq_refl eq_refl)
    as (st' & H1 & H2 & H3 & _).
  exists st'. auto.
Defined.

(** X2.  A withdrawal of an accepted amount throws
    [InsufficientBalanceError], changing nothing, exactly when the balance
    is less than the amount; otherwise it returns normally, takes the
    amount off the balance of the account and off the total of the bank,
    and leaves every other account as it was. *)
Theorem withdraw_outcome (st : BankImpl) (this : ref) (k : string)
    (acc : AccountImpl) (amount : float) :
  nth_error (accounts st) this = Some (k, acc) ->
  (amount <=? 0)%float = false ->
  (AccountImpl_withdraw this amount st = (Throws InsufficientBalanceError, st)
   <-> (balance acc <? amount)%float = true) /\
  ((balance acc <? amount)%float = false ->
   exists st',
     AccountImpl_withdraw this amount st = (Returns tt, st') /\
     nth_error (accounts st') this =
       Some (k, mkAccount (name acc) (balance acc - amount)) /\
     totalBalance st' = (totalBalance st - amount)%float /\
     (forall o, o <> this ->
                nth_error (accounts st') o = nth_error (accounts st) o)).
Proof.
  intros E V. rewrite withdraw_run, V, E. split.
  - destruct (balance acc <? amount)%float; split; congruence.
  - intros ->. eexists. split; [reflexivity|]. cbn [accounts totalBalance].
    split; [apply (nth_error_replace_eq _ _ _ _ E)|].
    split; [reflexivity|].
    intros o N. apply nth_error_replace_neq. congruence.
Qed.

Lemma withdraw_outcome_witness :
  exists st',
    AccountImpl_withdraw 0 20 (run [CreateAccount "Erin" 50] createBank)
      = (Returns tt, st') /\
    nth_error (accounts st') 0 = Some ("Erin"%string, mkAccount "Erin" (50 - 20)) /\
    totalBalance st' = (50 - 20)%float.
Proof.
  destruct (proj2 (withdraw_outcome (run [CreateAccount "Erin" 50] createBank)
                     0 "Erin" (mkAccount "Erin" 50) 20 eq_refl eq_refl) eq_refl)
    as (st' & H1 & H2 & H3 & _).
  exists st'. auto.
Defined.

(** X3.  Whatever the call (account creation, deposit, withdrawal or
    transfer) and whatever the state, a call that does not return
    normally leaves the bank exactly as it was: registry, balances and
    total. *)
Theorem failed_call_changes_nothing (c : Call) (st : BankImpl) :
  fst (call c st) <> Returns tt -> snd (call c st) = st.
Proof.
  destruct c as [n b|this a|this a|this rc a]; cbn [call].
  - unfold bind, ret. rewrite createAccount_run.
    destruct (b <=? 0)%float; [reflexivity|].
    destruct (Map_has n (accounts st)); [reflexivity|].
    destruct (String.length n =? 0)%nat; [reflexivity|].
    cbn [fst]. congruence.
  - rewrite deposit_run. destruct (a <=? 0)%float; [reflexivity|].
    destruct (nth_error (accounts st) this) as [[k acc]|]; [|reflexivity].
    cbn [fst]. congruence.
  - rewrite withdraw_run. destruct (a <=? 0)%float; [reflexivity|].
    destruct (nth_error (accounts st) this) as [[k acc]|]; [|reflexivity].
    destruct (balance acc <? a)%float; [reflexivity|]. cbn [fst]. congruence.
  - rewrite transfer_run. destruct (a <=? 0)%float; [reflexivity|].
    destruct (nth_error (accounts st) this) as [[k acc]|]; [|reflexivity].
    destruct (balance acc <? a)%float; [reflexivity|].
    destruct (String.eqb (name acc) rc); [reflexivity|].
    destruct (Map_index rc (accounts st)); [|reflexivity].
    cbn [fst]. congruence.
Qed.

Lemma failed_call_changes_nothing_witness :
  let st := run [CreateAccount "Erin" 50; CreateAccount "Paul" 20] createBank in
  snd (call (Transfer 0 "Paul" 100) st) = st /\
  snd (call (CreateAccount "Paul" 5) st) = st.
Proof.
  split; apply failed_call_changes_nothing; discriminate.
Defined.

Lemma createAccount_inv (st st' : BankImpl) (nm : string) (bal : float)
    (r : ref) :
  BankImpl_createAccount nm bal st = (Returns r, st') ->
  (bal <=? 0)%float = false /\ Map_has nm (accounts st) = false /\
  nm <> EmptyString /\
  r = List.length (accounts st) /\
  st' = mkBank (accounts st ++ [(nm, mkAccount (trim nm) bal)])
               (totalBalance st + bal).
Proof.
  rewrite createAccount_run.
  destruct (bal <=? 0)%float; [discriminate|].
  destruct (Map_has nm (accounts st)); [discriminate|].
  destruct nm as [|c nm]; [discriminate|]. cbn [String.length Nat.eqb].
  intros [= <- <-]. repeat split; discriminate.
Qed.

(** X4.  A successful account creation gives the new account exactly the
    opening balance and the trimmed name, registers it last under the
    string passed, adds the opening balance to the total, and returns a
    handle on it; every account already there keeps its place, key, name
    and balance. *)
Theorem createAccount_effect (st st' : BankImpl) (nm : string) (bal : float)
    (r : ref) :
  BankImpl_createAccount nm bal st = (Returns r, st') ->
  r = List.length (accounts st) /\
  accounts st' = accounts st ++ [(nm, mkAccount (trim nm) bal)] /\
  totalBalance st' = (totalBalance st + bal)%float /\
  (forall o, (o < List.length (accounts st))%nat ->
             nth_error (accounts st') o = nth_error (accounts st) o) /\
  Map_has nm (accounts st) = false /\ nm <> EmptyString /\
  (bal <=? 0)%float = false.
Proof.
  intros C.
  destruct (createAccount_inv _ _ _ _ _ C) as (V & Hh & Hne & -> & ->).
  cbn [accounts totalBalance]. repeat split; try assumption.
  intros o Ho. apply nth_error_app1. exact Ho.
Qed.

Lemma createAccount_effect_witness :
  let st := run [CreateAccount "Erin" 50] createBank in
  let st' := snd (BankImpl_createAccount "Paul" 20 st) in
  accounts st' = accounts st ++ [("Paul"%string, mkAccount "Paul" 20)] /\
  totalBalance st' = (50 + 20)%float.
Proof.
  destruct (createAccount_effect (run [CreateAccount "Erin" 50] createBank)
              _ "Paul" 20 1 eq_refl) as (_ & H1 & H2 & _).
  split; assumption.
Defined.

(** X5.  After a successful account creation, looking the name up returns
    the new account, where before it threw [MissingAccountError]; the
    lookup of every other string gives what it gave before. *)
Theorem createAccount_then_lookup (st st' : BankImpl) (nm : string)
    (bal : float) (r : ref) :
  BankImpl_createAccount nm bal st = (Returns r, st') ->
  BankImpl_getAccountByName nm st = (Throws MissingAccountError, st) /\
  BankImpl_getAccountByName nm st' = (Returns r, st') /\
  (forall k, k <> nm ->
             fst (BankImpl_getAccountByName k st') =
             fst (BankImpl_getAccountByName k st)).
Proof.
  intros C.
  destruct (createAccount_inv _ _ _ _ _ C) as (_ & Hh & _ & -> & ->).
  unfold BankImpl_getAccountByName. cbn [accounts]. unfold Map_has in Hh.
  destruct (Map_index nm (accounts st)) eqn:E; [discriminate|].
  split; [reflexivity|]. split.
  - rewrite Map_index_app_new, E, String.eqb_refl. reflexivity.
  - intros k N. rewrite Map_index_app_new.
    destruct (Map_index k (accounts st)); [reflexivity|].
    apply not_eq_sym, String.eqb_neq in N. rewrite N. reflexivity.
Qed.

Lemma createAccount_then_lookup_witness :
  let st := run [CreateAccount "Erin" 50] createBank in
  let st' := snd (BankImpl_createAccount "Paul" 20 st) in
  BankImpl_getAccountByName "Paul" st = (Throws MissingAccountError, st) /\
  BankImpl_getAccountByName "Paul" st' = (Returns 1%nat, st').
Proof.
  destruct (createAccount_then_lookup
              (run [CreateAccount "Erin" 50] createBank) _ "Paul" 20 1 eq_refl)
    as (H1 & H2 & _).
  split; assumption.
Defined.

(** ** The registry only grows *)

Lemma identities_replace (m : list (string * AccountImpl)) (i : nat)
    (k : string) (a : AccountImpl) (v : float) :
  nth_error m i = Some (k, a) ->
  map (fun e => (fst e, name (snd e))) (replace_nth i (k, mkAccount (name a) v) m)
  = map (fun e => (fst e, name (snd e))) m.
Proof.
  intros E. rewrite map_replace_nth. apply replace_nth_same.
  rewrite (map_nth_error _ _ _ E). reflexivity.
Qed.

Lemma identities_transferred (this r : ref) (amount : float)
    (m : list (string * AccountImpl)) :
  map (fun e => (fst e, name (snd e))) (transferred this r amount m)
  = map (fun e => (fst e, name (snd e))) m.
Proof.
  unfold transferred.
  destruct (nth_error m this) as [[k a]|] eqn:E; [|reflexivity].
  destruct (nth_error _ r) as [[kr ar]|] eqn:Er.
  - rewrite (identities_replace _ _ _ _ _ Er). apply (identities_replace _ _ _ _ _ E).
  - apply (identities_replace _ _ _ _ _ E).
Qed.

(** One call either leaves the identities alone or, being a successful
    creation under a new, non-empty string, adds one at the end. *)
Lemma call_identities (c : Call) (st : BankImpl) :
  identities (snd (call c st)) = identities st \/
  exists nm bal,
    c = CreateAccount nm bal /\ nm <> EmptyString /\
    ~ In nm (map fst (identities st)) /\
    identities (snd (call c st)) = identities st ++ [(nm, trim nm)].
Proof.
  unfold identities.
  destruct c as [n b|this a|this a|this rc a]; cbn [call].
  - unfold bind, ret. rewrite createAccount_run.
    destruct (b <=? 0)%float; [left; reflexivity|].
    destruct (Map_has n (accounts st)) eqn:Hh; [left; reflexivity|].
    destruct n as [|c n]; [left; reflexivity|]. cbn [String.length Nat.eqb].
    right. exists (String c n), b. split; [reflexivity|].
    split; [discriminate|]. split.
    + rewrite map_map. cbn [fst]. apply Map_has_false, Hh.
    + cbn [snd accounts]. rewrite map_app. reflexivity.
  - left. rewrite deposit_run. destruct (a <=? 0)%float; [reflexivity|].
    destruct (nth_error (accounts st) this) as [[k acc]|] eqn:E; [|reflexivity].
    cbn [snd accounts]. apply (identities_replace _ _ _ _ _ E).
  - left. rewrite withdraw_run. destruct (a <=? 0)%float; [reflexivity|].
    destruct (nth_error (accounts st) this) as [[k acc]|] eqn:E; [|reflexivity].
    destruct (balance acc <? a)%float; [reflexivity|].
    cbn [snd accounts]. apply (identities_replace _ _ _ _ _ E).
  - left. rewrite transfer_run. destruct (a <=? 0)%float; [reflexivity|].
    destruct (nth_error (accounts st) this) as [[k acc]|] eqn:E; [|reflexivity].
    destruct (balance acc <? a)%float; [reflexivity|].
    destruct (String.eqb (name acc) rc); [reflexivity|].
    destruct (Map_index rc (accounts st)); [|reflexivity].
    cbn [snd accounts]. apply identities_transferred.
Qed.

Lemma run_identities (cs : list Call) (st : BankImpl) :
  exists l, identities (run cs st) = identities st ++ l.
Proof.
  revert st. induction cs as [|c cs IH]; intros st; cbn [run].
  - exists []. rewrite app_nil_r. reflexivity.
  - destruct (IH (snd (call c st))) as [l Hl]. rewrite Hl.
    destruct (call_identities c st) as [->|(nm & bal & _ & _ & _ & ->)].
    + exists l. reflexivity.
    + exists ((nm, trim nm) :: l). rewrite <- app_assoc. reflexivity.
Qed.

Lemma identities_nth (st : BankImpl) (i : nat) (k n : string) :
  nth_error (identities st) i = Some (k, n) <->
  exists a, nth_error (accounts st) i = Some (k, a) /\ name a = n.
Proof.
  unfold identities. split.
  - intros H. destruct (nth_error (accounts st) i) as [[k' a]|] eqn:E.
    + rewrite (map_nth_error _ _ _ E) in H. cbn [fst snd] in H.
      injection H as -> <-. exists a. auto.
    + exfalso. apply nth_error_None in E.
      assert (i < List.length (map (fun e => (fst e, name (snd e)))
                                   (accounts st)))%nat
        by (apply nth_error_Some; congruence).
      rewrite length_map in *. lia.
  - intros (a & E & <-). rewrite (map_nth_error _ _ _ E). reflexivity.
Qed.

(** X6.  No call removes, renames, re-keys or moves an account: after any
    sequence of calls, succeeding or failing, every account that was there
    is still there, in the same place, under the same key and with the
    same stored name, and the registry is at least as long. *)
Theorem registry_only_grows (cs : list Call) (st : BankImpl) :
  (List.length (accounts st) <= List.length (accounts (run cs st)))%nat /\
  forall i k a,
    nth_error (accounts st) i = Some (k, a) ->
    exists a', nth_error (accounts (run cs st)) i = Some (k, a') /\
               name a' = name a.
Proof.
  destruct (run_identities cs st) as [l Hl]. split.
  - apply (f_equal (@List.length _)) in Hl. unfold identities in Hl.
    rewrite length_app, !length_map in Hl. lia.
  - intros i k a E. apply identities_nth. rewrite Hl.
    rewrite nth_error_app1.
    + apply identities_nth. exists a. auto.
    + unfold identities. rewrite length_map. apply nth_error_Some. congruence.
Qed.

Lemma registry_only_grows_witness :
  exists a',
    nth_error (accounts (run [Withdraw 0 10; CreateAccount "Paul" 20;
                              Transfer 0 "Paul" 40]
                             (run [CreateAccount "Erin" 50] createBank))) 0
      = Some ("Erin"%string, a') /\
    name a' = "Erin"%string.
Proof.
  exact (proj2 (registry_only_grows
                  [Withdraw 0 10; CreateAccount "Paul" 20; Transfer 0 "Paul" 40]
                  (run [CreateAccount "Erin" 50] createBank))
               0%nat "Erin"%string (mkAccount "Erin" 50) eq_refl).
Defined.

Lemma reachable_keys (st : BankImpl) :
  reachable st ->
  NoDup (map fst (identities st)) /\
  Forall (fun k => k <> EmptyString) (map fst (identities st)).
Proof.
  intros [cs ->].
  apply (run_invariant
           (fun st => NoDup (map fst (identities st)) /\
                      Forall (fun k => k <> EmptyString) (map fst (identities st)))).
  - intros c st [Hn He].
    destruct (call_identities c st) as [->|(nm & bal & _ & Hne & Hnew & ->)];
      [split; assumption|].
    rewrite map_app. cbn [map fst]. split.
    + apply NoDup_app; [exact Hn|repeat constructor; intros []|].
      intros k Hk [<-|[]]. exact (Hnew Hk).
    + apply Forall_app. split; [exact He|]. constructor; [exact Hne|constructor].
  - split; constructor.
Qed.

(** X7.  In every bank reachable through the interface the keys of the
    registry are pairwise distinct: looking up the string an account is
    registered under returns that very account, and no other account is
    registered under it. *)
Theorem lookup_finds_own_account (st : BankImpl) (i : ref) (k : string)
    (a : AccountImpl) :
  reachable st ->
  nth_error (accounts st) i = Some (k, a) ->
  BankImpl_getAccountByName k st = (Returns i, st) /\
  (forall j a', nth_error (accounts st) j = Some (k, a') -> j = i).
Proof.
  intros R E. destruct (reachable_keys st R) as [Hn _].
  unfold identities in Hn. rewrite map_map in Hn. cbn [fst] in Hn.
  pose proof (Map_index_NoDup _ _ _ _ Hn E) as Hi. split.
  - unfold BankImpl_getAccountByName. rewrite Hi. reflexivity.
  - intros j a' Ej. pose proof (Map_index_NoDup _ _ _ _ Hn Ej). congruence.
Qed.

Lemma lookup_finds_own_account_witness :
  let st := run [CreateAccount "Erin" 50; CreateAccount " Erin" 20;
                 Transfer 0 " Erin" 5] createBank in
  BankImpl_getAccountByName " Erin" st = (Returns 1%nat, st).
Proof.
  exact (proj1 (lookup_finds_own_account
                  (run [CreateAccount "Erin" 50; CreateAccount " Erin" 20;
                        Transfer 0 " Erin" 5] createBank)
                  1 " Erin" (mkAccount "Erin" 25)
                  (ex_intro _ [CreateAccount "Erin" 50; CreateAccount " Erin" 20;
                               Transfer 0 " Erin" 5] eq_refl)
                  eq_refl)).
Defined.

(** X8.  The empty string is never a key of a reachable bank, so that
    creating an account with the empty name and an accepted opening
    balance always throws [InvalidNameError], and changes nothing. *)
Theorem empty_name_is_refused (st : BankImpl) (bal : float) :
  reachable st ->
  (bal <=? 0)%float = false ->
  Map_has EmptyString (accounts st) = false /\
  BankImpl_createAccount EmptyString bal st = (Throws InvalidNameError, st).
Proof.
  intros R V. destruct (reachable_keys st R) as [_ He].
  assert (Map_has EmptyString (accounts st) = false) as Hh.
  { apply Map_has_false. intros Hin.
    unfold identities in He. rewrite map_map in He. cbn [fst] in He.
    rewrite Forall_forall in He. apply (He _ Hin). reflexivity. }
  split; [exact Hh|]. rewrite createAccount_run, V, Hh. reflexivity.
Qed.

Lemma empty_name_is_refused_witness :
  BankImpl_createAccount EmptyString 50
    (run [CreateAccount " " 50; CreateAccount "Paul" 20] createBank) =
  (Throws InvalidNameError,
   run [CreateAccount " " 50; CreateAccount "Paul" 20] createBank).
Proof.
  exact (proj2 (empty_name_is_refused
                  (run [CreateAccount " " 50; CreateAccount "Paul" 20] createBank)
                  50
                  (ex_intro _ [CreateAccount " " 50; CreateAccount "Paul" 20]
                            eq_refl)
                  eq_refl)).
Defined.

(** X9.  A handle returned by [createAccount] never goes stale: after any
    further calls, succeeding or failing, it still designates an account
    registered under the string it was created with and storing its
    trimmed form, and [checkBalance] through it returns that account's
    balance without changing anything. *)
Theorem handle_stays_valid (st st' : BankImpl) (nm : string) (bal : float)
    (r : ref) (cs : list Call) :
  BankImpl_createAccount nm bal st = (Returns r, st') ->
  exists a,
    nth_error (accounts (run cs st')) r = Some (nm, a) /\
    name a = trim nm /\
    AccountImpl_checkBalance r (run cs st') = (Returns (balance a), run cs st').
Proof.
  intros C. pose proof (createAccount_ref _ _ _ _ _ C) as E.
  destruct (run_identities cs st') as [l Hl].
  assert (nth_error (identities (run cs st')) r = Some (nm, trim nm)) as Hi.
  { rewrite Hl. rewrite nth_error_app1.
    - apply identities_nth. eexists. split; [exact E|reflexivity].
    - unfold identities. rewrite length_map. apply nth_error_Some. congruence. }
  apply identities_nth in Hi. destruct Hi as (a & Er & Hn).
  exists a. split; [exact Er|]. split; [exact Hn|].
  unfold AccountImpl_checkBalance, getField. rewrite Er. reflexivity.
Qed.

Lemma handle_stays_valid_witness :
  exists a,
    nth_error (accounts (run [Deposit 0 5; Withdraw 0 100; CreateAccount "Paul" 1]
                             (run [CreateAccount " Erin" 50] createBank))) 0
      = Some (" Erin"%string, a) /\
    name a = trim " Erin".
Proof.
  destruct (handle_stays_valid createBank _ " Erin" 50 0
              [Deposit 0 5; Withdraw 0 100; CreateAccount "Paul" 1] eq_refl)
    as (a & H1 & H2 & _).
  exists a. split; assumption.
Defined.

(** ** A transfer addressed to the sender's own key *)

(** X10.  The test for a transfer to oneself compares the stored (trimmed)
    name with the recipient string.  An account whose key differs from its
    stored name and which transfers an accepted, covered amount to its own
    key is therefore looked up and paid like any recipient: the call
    returns normally, its balance becomes [(balance - amount) + amount] in
    [number] arithmetic, and nothing else changes.  When balance and
    amount are integers up to [Number.MAX_SAFE_INTEGER] the bank is exactly
    as before. *)
Theorem transfer_to_own_key (st : BankImpl) (this : ref) (k : string)
    (acc : AccountImpl) (amount : float) :
  nth_error (accounts st) this = Some (k, acc) ->
  Map_index k (accounts st) = Some this ->
  name acc <> k ->
  (amount <=? 0)%float = false ->
  (balance acc <? amount)%float = false ->
  AccountImpl_transfer this k amount st =
  (Returns tt,
   mkBank (replace_nth this
             (k, mkAccount (name acc) (balance acc - amount + amount))
             (accounts st))
          (totalBalance st)) /\
  (forall zb z : Z,
     balance acc = Z2F zb -> amount = Z2F z ->
     (0 <= z <= zb)%Z -> (zb <= MAX_SAFE_INTEGER)%Z ->
     AccountImpl_transfer this k amount st = (Returns tt, st)).
Proof.
  intros E Hi Hn V S. apply String.eqb_neq in Hn.
  assert (transferred this this amount (accounts st) =
          replace_nth this
            (k, mkAccount (name acc) (balance acc - amount + amount))
            (accounts st)) as Ht.
  { unfold transferred. rewrite E.
    rewrite (nth_error_replace_eq _ _ _ _ E). cbn [name balance].
    apply replace_nth_twice. }
  rewrite transfer_run, V, E, S, Hn, Hi, Ht. split; [reflexivity|].
  intros zb z Eb Ea Hz Hb. pose proof two53 as T.
  rewrite Eb, Ea, Z2F_sub, Z2F_add by lia.
  replace (zb - z + z)%Z with zb by lia. rewrite <- Eb.
  rewrite replace_nth_same by (rewrite E; destruct acc; reflexivity).
  destruct st; reflexivity.
Qed.

Lemma transfer_to_own_key_witness :
  let st := run [CreateAccount " Erin" 50] createBank in
  AccountImpl_transfer 0 " Erin" 20 st = (Returns tt, st).
Proof.
  apply (proj2 (transfer_to_own_key
                  (run [CreateAccount " Erin" 50] createBank) 0 " Erin"
                  (mkAccount "Erin" 50) 20 eq_refl eq_refl
                  ltac:(discriminate) eq_refl eq_refl) 50%Z 20%Z);
    try reflexivity; unfold MAX_SAFE_INTEGER; lia.
Defined.

(** ** Integer amounts: the total is never negative, and a deposit undoes
    a withdrawal *)

Lemma trace_safe (cs : list ZCall) (st : BankImpl) (zs : list Z) (B : Z) :
  safeState st zs -> (Zsum zs <= B)%Z ->
  Forall (fun c => 0 <= ZamountOf c <= MAX_SAFE_INTEGER)%Z cs ->
  (B + totalInflow cs <= MAX_SAFE_INTEGER)%Z ->
  Forall (fun st' => exists zs', safeState st' zs' /\
                                 (Zsum zs' <= MAX_SAFE_INTEGER)%Z)
         (trace (map toCall cs) st).
Proof.
  revert st zs B. induction cs as [|c cs IH]; intros st zs B Hs HB F HI;
    cbn [map trace totalInflow fold_right] in *.
  - constructor; [|constructor]. exists zs. split; [exact Hs|lia].
  - inversion F as [|? ? Fc Fcs]; subst.
    assert (0 <= totalInflow cs)%Z as Hin.
    { clear - Fcs. unfold totalInflow.
      induction Fcs as [|c cs Hc _ IH]; cbn [fold_right]; [lia|].
      pose proof (inflow_nonneg c Hc). lia. }
    unfold totalInflow in Hin. pose proof (inflow_nonneg c Fc) as Hc.
    constructor; [exists zs; split; [exact Hs|lia]|].
    destruct (call_safeState c st zs B Hs HB Fc ltac:(lia)) as (zs' & Hs' & HB').
    apply (IH _ zs' (B + inflow c)%Z); auto.
    unfold totalInflow. lia.
Qed.

(** X11.  The remark in [BankImpl.withdraw], that the total cannot go
    negative, holds when every amount passed is an integer between 0 and
    [Number.MAX_SAFE_INTEGER] and the amounts passed to [createAccount]
    and [deposit] add up to at most [Number.MAX_SAFE_INTEGER]: before the
    first call and after each call, the total of the bank is greater than
    or equal to 0. *)
Theorem total_stays_nonnegative (cs : list ZCall) :
  Forall (fun c => 0 <= ZamountOf c <= MAX_SAFE_INTEGER)%Z cs ->
  (totalInflow cs <= MAX_SAFE_INTEGER)%Z ->
  Forall (fun st => (0 <=? totalBalance st)%float = true)
         (trace (map toCall cs) createBank).
Proof.
  intros F HI.
  assert (safeState createBank []) as H0
    by (split; [split; [reflexivity|constructor]|reflexivity]).
  pose proof (trace_safe cs createBank [] 0%Z H0 (Z.le_refl _) F HI) as H.
  apply (Forall_impl _ (P := fun st' => exists zs', safeState st' zs' /\
                                        (Zsum zs' <= MAX_SAFE_INTEGER)%Z));
    [|exact H].
  intros st (zs & [[_ Hz] Ht] & Hb). rewrite Ht.
  pose proof (Zsum_nonneg zs Hz) as Hn. pose proof two53 as T.
  change 0%float with (Z2F 0). rewrite Z2F_leb by lia.
  apply Z.leb_le. exact Hn.
Qed.

Lemma total_stays_nonnegative_witness :
  Forall (fun st => (0 <=? totalBalance st)%float = true)
         (trace [CreateAccount "Erin" 50; Withdraw 0 50; Withdraw 0 1]
                createBank).
Proof.
  apply (total_stays_nonnegative
           [ZCreateAccount "Erin" 50; ZWithdraw 0 50; ZWithdraw 0 1]).
  - repeat constructor; discriminate.
  - discriminate.
Defined.

(** Beyond 2^53 the remark fails: the total of this bank ends at -1,
    while both balances are 0. *)
Example total_can_go_negative :
  let st := run [CreateAccount "Erin" 9007199254740992; CreateAccount "Paul" 1;
                 Withdraw 0 9007199254740992; Withdraw 1 1] createBank in
  totalBalance st = (-1)%float /\ balances st = [0%float; 0%float].
Proof. split; reflexivity. Qed.

(** Rounding a negative number mirrors rounding its opposite. *)
Lemma binary_round_opp (p : positive) (e : Z) :
  binary_round prec emax true p e = SFopp (binary_round prec emax false p e).
Proof.
  unfold binary_round. destruct (shl_align _ _ _) as [mz ez].
  unfold binary_round_aux.
  destruct (shr_fexp prec emax (Zpos mz) ez loc_Exact) as [mrs' e'].
  destruct (shr_fexp prec emax _ e' loc_Exact) as [mrs'' e''].
  destruct (shr_m mrs'') as [|m|m]; try reflexivity.
  destruct (e'' <=? emax - prec)%Z; reflexivity.
Qed.

(** Taking more than there is: the difference of two integers, the second
    the greater, is the opposite of an integer. *)
Lemma SFsub_int_below (a b : Z) :
  (0 <= a < b)%Z -> (b < 2 ^ 53)%Z ->
  SF64sub (SFint a) (SFint b) = SFopp (SFint (b - a)).
Proof.
  intros Ha H.
  destruct b as [|b|b]; try lia.
  destruct a as [|a|a]; try lia.
  { rewrite Z.sub_0_r. destruct (SFint_pos b ltac:(lia)) as (m & -> & _).
    reflexivity. }
  destruct (SFint_align a b ltac:(lia) ltac:(lia))
    as (ma & ea & mb & eb & k & -> & -> & Hk & Hmin & Fa & Fb).
  unfold SF64sub, SFsub. change IntDef.Z.min with Z.min.
  cbn [cond_Zopp]. rewrite Fa, Fb, Hmin, <- Z.mul_sub_distr_r.
  assert (0 < (Zpos b - Zpos a) * 2 ^ k)%Z as P
    by (apply Z.mul_pos_pos; [lia|apply Z.pow_pos_nonneg; lia]).
  replace ((Zpos a - Zpos b) * 2 ^ k)%Z with (- ((Zpos b - Zpos a) * 2 ^ k))%Z
    by lia.
  destruct ((Zpos b - Zpos a) * 2 ^ k)%Z as [|p|p] eqn:E; try lia.
  cbn [Z.opp binary_normalize]. rewrite binary_round_opp. f_equal.
  destruct (Zpos b - Zpos a)%Z as [|n|n] eqn:En; try lia.
  apply binary_round_int; auto. lia.
Qed.

(** ... and adding the second integer back gives the first. *)
Lemma SFadd_int_back (d z : Z) :
  (0 < d <= z)%Z -> (z < 2 ^ 53)%Z ->
  SF64add (SFopp (SFint d)) (SFint z) = SFint (z - d).
Proof.
  intros Hd H.
  destruct d as [|d|d]; try lia. destruct z as [|z|z]; try lia.
  destruct (SFint_align d z ltac:(lia) ltac:(lia))
    as (ma & ea & mb & eb & k & -> & -> & Hk & Hmin & Fa & Fb).
  unfold SF64add, SFadd, SFopp. change IntDef.Z.min with Z.min.
  cbn [cond_Zopp negb]. rewrite Fa, Fb, Hmin.
  replace (- (Zpos d * 2 ^ k) + Zpos z * 2 ^ k)%Z
    with ((Zpos z - Zpos d) * 2 ^ k)%Z by lia.
  apply binary_normalize_int; lia.
Qed.

Lemma Z2F_sub_add_back (a b : Z) :
  (0 <= a < b)%Z -> (b <= MAX_SAFE_INTEGER)%Z ->
  (Z2F a - Z2F b + Z2F b)%float = Z2F a.
Proof.
  intros Ha Hb. pose proof two53 as T. apply Prim2SF_inj.
  rewrite add_spec, sub_spec, !Prim2SF_Z2F by lia.
  rewrite SFsub_int_below, SFadd_int_back by lia. f_equal. lia.
Qed.

(** X12.  On an account whose balance is the integer [zb], in a bank
    whose total is the integer [zt >= 0], depositing and then withdrawing
    an integer amount [0 < z <= zb], or withdrawing and then depositing
    it, gives back exactly the bank one started from, as long as
    [zb + z] and [zt + z] are at most [Number.MAX_SAFE_INTEGER].  The
    total need not cover the amount. *)
Theorem deposit_and_withdraw_cancel (st : BankImpl) (this : ref) (k : string)
    (acc : AccountImpl) (zb zt z : Z) :
  nth_error (accounts st) this = Some (k, acc) ->
  balance acc = Z2F zb -> totalBalance st = Z2F zt ->
  (0 <= zt)%Z -> (0 < z <= zb)%Z ->
  (zb + z <= MAX_SAFE_INTEGER)%Z -> (zt + z <= MAX_SAFE_INTEGER)%Z ->
  run [Deposit this (Z2F z); Withdraw this (Z2F z)] st = st /\
  run [Withdraw this (Z2F z); Deposit this (Z2F z)] st = st.
Proof.
  intros E Eb Et Hzt Hz Hb Ht. pose proof two53 as T.
  assert ((Z2F z <=? 0)%float = false) as V.
  { rewrite Z2F_invalid by lia. apply Z.leb_gt. lia. }
  assert (forall v, replace_nth this (k, mkAccount (name acc) (balance acc))
                      (replace_nth this (k, mkAccount (name acc) v) (accounts st))
                    = accounts st) as Back.
  { intros v. rewrite replace_nth_twice. apply replace_nth_same.
    rewrite E. destruct acc; reflexivity. }
  assert ((Z2F zt - Z2F z + Z2F z)%float = Z2F zt) as Tot.
  { destruct (Z_lt_le_dec zt z) as [Hlt|Hle].
    - apply Z2F_sub_add_back; lia.
    - rewrite Z2F_sub, Z2F_add by lia. f_equal. lia. }
  split; cbn [run call].
  - rewrite deposit_run, V, E. cbn [snd].
    rewrite withdraw_run, V. cbn [accounts totalBalance].
    rewrite (nth_error_replace_eq _ _ _ _ E). cbn [name balance].
    rewrite Eb, Et, !Z2F_add, Z2F_ltb by lia.
    replace (zb + z <? z)%Z with false by (symmetry; apply Z.ltb_ge; lia).
    cbn [snd]. rewrite !Z2F_sub by lia.
    replace (zb + z - z)%Z with zb by lia.
    replace (zt + z - z)%Z with zt by lia.
    rewrite <- Eb, <- Et, Back. destruct st; reflexivity.
  - rewrite withdraw_run, V, E, Eb, Z2F_ltb by lia.
    replace (zb <? z)%Z with false by (symmetry; apply Z.ltb_ge; lia).
    cbn [snd]. rewrite deposit_run, V. cbn [accounts totalBalance].
    rewrite (nth_error_replace_eq _ _ _ _ E). cbn [name balance].
    rewrite Et, Tot, Z2F_sub, Z2F_add by lia.
    replace (zb - z + z)%Z with zb by lia.
    rewrite <- Eb, <- Et, Back. destruct st; reflexivity.
Qed.

Lemma deposit_and_withdraw_cancel_witness :
  let st := run [CreateAccount "Erin" 9007199254740992; CreateAccount "Paul" 1;
                 Withdraw 0 9007199254740992] createBank in
  (balances st = [0%float; 1%float] /\ totalBalance st = 0%float) /\
  run [Deposit 1 1; Withdraw 1 1] st = st /\
  run [Withdraw 1 1; Deposit 1 1] st = st.
Proof.
  split; [split; reflexivity|].
  apply (deposit_and_withdraw_cancel
           (run [CreateAccount "Erin" 9007199254740992; CreateAccount "Paul" 1;
                 Withdraw 0 9007199254740992] createBank)
           1 "Paul" (mkAccount "Paul" 1) 1 0 1);
    try reflexivity; unfold MAX_SAFE_INTEGER; lia.
Defined.

(** With amounts that are not integers the round trip can miss: 0.1 plus
    0.2 minus 0.2 is not 0.1. *)
Example deposit_and_withdraw_drift :
  let st := run [CreateAccount "Erin" 0.1] createBank in
  balances (run [Deposit 0 0.2; Withdraw 0 0.2] st) = [0.10000000000000003%float].
Proof. reflexivity. Qed.

(** ** NaN, once in, stays *)

Lemma nan_add_l (x a : float) : is_nan x = true -> is_nan (x + a) = true.
Proof.
  rewrite !is_nan_spec, add_spec.
  destruct (Prim2SF x); try discriminate. reflexivity.
Qed.

Lemma nan_sub_l (x a : float) : is_nan x = true -> is_nan (x - a) = true.
Proof.
  rewrite !is_nan_spec, sub_spec.
  destruct (Prim2SF x); try discriminate. reflexivity.
Qed.

Lemma nan_ltb_l (x a : float) : is_nan x = true -> (x <? a)%float = false.
Proof.
  rewrite is_nan_spec, FloatAxioms.ltb_spec.
  destruct (Prim2SF x); try discriminate. reflexivity.
Qed.

Lemma add_nan_r (x : float) : (x + nan)%float = nan.
Proof.
  apply Prim2SF_inj. rewrite add_spec.
  change (Prim2SF nan) with S754_nan. destruct (Prim2SF x) as [| | |[]]; reflexivity.
Qed.

Lemma sub_nan_r (x : float) : (x - nan)%float = nan.
Proof.
  apply Prim2SF_inj. rewrite sub_spec.
  change (Prim2SF nan) with S754_nan. destruct (Prim2SF x) as [| | |[]]; reflexivity.
Qed.

Lemma ltb_nan_r (x : float) : (x <? nan)%float = false.
Proof.
  rewrite FloatAxioms.ltb_spec. change (Prim2SF nan) with S754_nan.
  destruct (Prim2SF x) as [| | |[]]; reflexivity.
Qed.

(** What a transfer leaves at a place of the registry. *)
Lemma transferred_nth (this r : ref) (amount : float)
    (m : list (string * AccountImpl)) (i : nat) (k : string) (a : AccountImpl) :
  nth_error m i = Some (k, a) ->
  exists v,
    nth_error (transferred this r amount m) i = Some (k, mkAccount (name a) v) /\
    (v = balance a \/ v = (balance a - amount)%float \/
     v = (balance a + amount)%float \/ v = (balance a - amount + amount)%float).
Proof.
  intros E. unfold transferred.
  destruct (nth_error m this) as [[kt at_]|] eqn:Et.
  2:{ exists (balance a). rewrite E. destruct a; auto. }
  destruct (Nat.eq_dec this i) as [->|Nt].
  - rewrite E in Et. injection Et as <- <-.
    destruct (Nat.eq_dec r i) as [->|Nr].
    + rewrite (nth_error_replace_eq _ _ _ _ E).
      exists (balance a - amount + amount)%float.
      split; [|auto]. eapply nth_error_replace_eq.
      apply (nth_error_replace_eq _ _ _ _ E).
    + exists (balance a - amount)%float. split; [|auto].
      destruct (nth_error _ r) as [[kr ar]|];
        rewrite ?(nth_error_replace_neq _ _ _ _ Nr);
        apply (nth_error_replace_eq _ _ _ _ E).
  - destruct (Nat.eq_dec r i) as [->|Nr].
    + rewrite (nth_error_replace_neq _ _ _ _ Nt), E.
      exists (balance a + amount)%float. split; [|auto].
      apply (nth_error_replace_eq _ _ _ (k, a)).
      rewrite (nth_error_replace_neq _ _ _ _ Nt). exact E.
    + exists (balance a). split; [|auto].
      destruct (nth_error _ r) as [[kr ar]|];
        rewrite ?(nth_error_replace_neq _ _ _ _ Nr),
                (nth_error_replace_neq _ _ _ _ Nt), E;
        destruct a; reflexivity.
Qed.

Lemma call_nan_total (c : Call) (st : BankImpl) :
  is_nan (totalBalance st) = true ->
  is_nan (totalBalance (snd (call c st))) = true.
Proof.
  intros H. destruct c as [n b|this a|this a|this rc a]; cbn [call].
  - unfold bind, ret. rewrite createAccount_run.
    destruct (b <=? 0)%float; [exact H|].
    destruct (Map_has n (accounts st)); [exact H|].
    destruct (String.length n =? 0)%nat; [exact H|].
    apply nan_add_l, H.
  - rewrite deposit_run. destruct (a <=? 0)%float; [exact H|].
    destruct (nth_error (accounts st) this) as [[k acc]|]; [|exact H].
    apply nan_add_l, H.
  - rewrite withdraw_run. destruct (a <=? 0)%float; [exact H|].
    destruct (nth_error (accounts st) this) as [[k acc]|]; [|exact H].
    destruct (balance acc <? a)%float; [exact H|]. apply nan_sub_l, H.
  - rewrite transfer_run. destruct (a <=? 0)%float; [exact H|].
    destruct (nth_error (accounts st) this) as [[k acc]|]; [|exact H].
    destruct (balance acc <? a)%float; [exact H|].
    destruct (String.eqb (name acc) rc); [exact H|].
    destruct (Map_index rc (accounts st)); exact H.
Qed.

Lemma call_nan_balance (c : Call) (st : BankImpl) (r : ref) (k : string)
    (a : AccountImpl) :
  nth_error (accounts st) r = Some (k, a) -> is_nan (balance a) = true ->
  exists a', nth_error (accounts (snd (call c st))) r = Some (k, a') /\
             is_nan (balance a') = true.
Proof.
  intros E H.
  assert (exists a', nth_error (accounts st) r = Some (k, a') /\
                     is_nan (balance a') = true) as Same by (exists a; auto).
  assert (forall this k' acc v,
            nth_error (accounts st) this = Some (k', acc) ->
            (v = (balance acc + amountOf c)%float \/
             v = (balance acc - amountOf c)%float) ->
            exists a', nth_error (replace_nth this (k', mkAccount (name acc) v)
                                              (accounts st)) r = Some (k, a') /\
                       is_nan (balance a') = true) as Upd.
  { intros this k' acc v Et Hv. destruct (Nat.eq_dec this r) as [->|N].
    - rewrite E in Et. injection Et as <- <-.
      eexists. split; [apply (nth_error_replace_eq _ _ _ _ E)|]. cbn [balance].
      destruct Hv as [->| ->]; [apply nan_add_l|apply nan_sub_l]; exact H.
    - exists a. rewrite (nth_error_replace_neq _ _ _ _ N). auto. }
  destruct c as [n b|this x|this x|this rc x]; cbn [call amountOf] in *.
  - unfold bind, ret. rewrite createAccount_run.
    destruct (b <=? 0)%float; [exact Same|].
    destruct (Map_has n (accounts st)); [exact Same|].
    destruct (String.length n =? 0)%nat; [exact Same|].
    cbn [snd accounts]. exists a. split; [|exact H].
    rewrite nth_error_app1; [exact E|]. apply nth_error_Some. congruence.
  - rewrite deposit_run. destruct (x <=? 0)%float; [exact Same|].
    destruct (nth_error (accounts st) this) as [[k' acc]|] eqn:Et; [|exact Same].
    cbn [snd accounts]. apply (Upd _ _ _ _ Et). auto.
  - rewrite withdraw_run. destruct (x <=? 0)%float; [exact Same|].
    destruct (nth_error (accounts st) this) as [[k' acc]|] eqn:Et; [|exact Same].
    destruct (balance acc <? x)%float; [exact Same|].
    cbn [snd accounts]. apply (Upd _ _ _ _ Et). auto.
  - rewrite transfer_run. destruct (x <=? 0)%float; [exact Same|].
    destruct (nth_error (accounts st) this) as [[k' acc]|] eqn:Et; [|exact Same].
    destruct (balance acc <? x)%float; [exact Same|].
    destruct (String.eqb (name acc) rc); [exact Same|].
    destruct (Map_index rc (accounts st)) as [r0|]; [|exact Same].
    cbn [snd accounts].
    destruct (transferred_nth this r0 x _ _ _ _ E) as (v & Hv & Hc).
    eexists. split; [exact Hv|]. cbn [balance].
    destruct Hc as [->|[->|[->| ->]]];
      auto using nan_add_l, nan_sub_l.
Qed.

(** X13.  NaN is never repaired.  Once the total of the bank is NaN it is
    NaN after any further calls; once the balance of an account is NaN it
    is NaN after any further calls; and an account whose balance is NaN
    covers every withdrawal: no accepted amount is refused for
    insufficient balance. *)
Theorem nan_is_permanent (cs : list Call) (st : BankImpl) :
  (is_nan (totalBalance st) = true ->
   is_nan (totalBalance (run cs st)) = true) /\
  (forall r k a,
     nth_error (accounts st) r = Some (k, a) -> is_nan (balance a) = true ->
     (exists a', nth_error (accounts (run cs st)) r = Some (k, a') /\
                 is_nan (balance a') = true) /\
     (forall amount, (amount <=? 0)%float = false ->
                     fst (AccountImpl_withdraw r amount st) = Returns tt)).
Proof.
  split.
  - revert st. induction cs as [|c cs IH]; intros st H; cbn [run]; [exact H|].
    apply IH, call_nan_total, H.
  - intros r k a E H. split.
    + revert st a E H. induction cs as [|c cs IH]; intros st a E H; cbn [run].
      * exists a. auto.
      * destruct (call_nan_balance c st r k a E H) as (a' & E' & H').
        apply (IH _ a' E' H').
    + intros amount V.
      rewrite withdraw_run, V, E, (nan_ltb_l _ amount H). reflexivity.
Qed.

Lemma nan_is_permanent_witness :
  is_nan (totalBalance (run [Withdraw 0 5; CreateAccount "Paul" 20; Deposit 1 3]
                            (run [CreateAccount "Erin" nan] createBank))) = true.
Proof.
  apply (proj1 (nan_is_permanent
                  [Withdraw 0 5; CreateAccount "Paul" 20; Deposit 1 3]
                  (run [CreateAccount "Erin" nan] createBank))).
  reflexivity.
Defined.

(** X14.  NaN as an amount is never refused: through any valid handle a
    deposit and a withdrawal of NaN return normally, whatever the balance,
    and leave that balance and the total of the bank NaN. *)
Theorem nan_amount_is_applied (st : BankImpl) (this : ref) (k : string)
    (acc : AccountImpl) :
  nth_error (accounts st) this = Some (k, acc) ->
  AccountImpl_deposit this nan st =
    (Returns tt,
     mkBank (replace_nth this (k, mkAccount (name acc) nan) (accounts st)) nan) /\
  AccountImpl_withdraw this nan st =
    (Returns tt,
     mkBank (replace_nth this (k, mkAccount (name acc) nan) (accounts st)) nan).
Proof.
  intros E. split.
  - rewrite deposit_run, E. change (nan <=? 0)%float with false.
    cbn iota. rewrite !add_nan_r. reflexivity.
  - rewrite withdraw_run, E, ltb_nan_r. change (nan <=? 0)%float with false.
    cbn iota. rewrite !sub_nan_r. reflexivity.
Qed.

Lemma nan_amount_is_applied_witness :
  AccountImpl_withdraw 0 nan (run [CreateAccount "Erin" 50] createBank) =
  (Returns tt, mkBank [("Erin"%string, mkAccount "Erin" nan)] nan).
Proof.
  exact (proj2 (nan_amount_is_applied (run [CreateAccount "Erin" 50] createBank)
                  0 "Erin" (mkAccount "Erin" 50) eq_refl)).
Defined.

(** ** What the manager reads *)

(** X15.  [getTotalBankBalance] never throws and changes nothing; what it
    returns moves only with a successful account creation, deposit or
    withdrawal: a transfer, whatever its outcome and whoever its
    recipient, and every call that does not return normally leave the
    manager's reading as it was. *)
Theorem manager_reading (c : Call) (st : BankImpl) :
  ManagerImpl_getTotalBankBalance st = (Returns (totalBalance st), st) /\
  ((exists this recipient amount, c = Transfer this recipient amount) \/
   fst (call c st) <> Returns tt ->
   ManagerImpl_getTotalBankBalance (snd (call c st)) =
   (Returns (totalBalance st), snd (call c st))).
Proof.
  split; [reflexivity|].
  unfold ManagerImpl_getTotalBankBalance, BankImpl_getTotalBalance, getTotal.
  intros H. f_equal. f_equal.
  destruct c as [n b|this a|this a|this rc a]; cbn [call] in *.
  - destruct H as [(? & ? & ? & [=])|H].
    unfold bind, ret in *. rewrite createAccount_run in *.
    destruct (b <=? 0)%float; [reflexivity|].
    destruct (Map_has n (accounts st)); [reflexivity|].
    destruct (String.length n =? 0)%nat; [reflexivity|].
    cbn [fst] in H. congruence.
  - destruct H as [(? & ? & ? & [=])|H]. rewrite deposit_run in *.
    destruct (a <=? 0)%float; [reflexivity|].
    destruct (nth_error (accounts st) this) as [[k acc]|]; [|reflexivity].
    cbn [fst] in H. congruence.
  - destruct H as [(? & ? & ? & [=])|H]. rewrite withdraw_run in *.
    destruct (a <=? 0)%float; [reflexivity|].
    destruct (nth_error (accounts st) this) as [[k acc]|]; [|reflexivity].
    destruct (balance acc <? a)%float; [reflexivity|].
    cbn [fst] in H. congruence.
  - clear H. rewrite transfer_run.
    destruct (a <=? 0)%float; [reflexivity|].
    destruct (nth_error (accounts st) this) as [[k acc]|]; [|reflexivity].
    destruct (balance acc <? a)%float; [reflexivity|].
    destruct (String.eqb (name acc) rc); [reflexivity|].
    destruct (Map_index rc (accounts st)); reflexivity.
Qed.

Lemma manager_reading_witness :
  let st := run [CreateAccount "Erin" 50; CreateAccount "Paul" 20] createBank in
  ManagerImpl_getTotalBankBalance (snd (call (Transfer 0 "Paul" 10) st)) =
  (Returns 70%float, snd (call (Transfer 0 "Paul" 10) st)).
Proof.
  apply (proj2 (manager_reading
                  (Transfer 0 "Paul" 10)
                  (run [CreateAccount "Erin" 50; CreateAccount "Paul" 20]
                       createBank))).
  left. exists 0%nat, "Paul"%string, 10%float. reflexivity.
Defined.

